(** * gptransits/plot.py: the diagnostic plots of the GP transit pipeline

    A shallow embedding of [plot_gp] and [plot_psd] and the properties of
    the power-spectral-density aggregation, the legend bookkeeping and the
    two normalisations of the empirical spectrum.

    Conventions of the embedding.
    - A one-dimensional numpy array of floats is a [list Q].  float64
      arithmetic is idealised as exact rational arithmetic: rounding,
      signed zeros, infinities and NaN are outside the model.  Where numpy
      would produce inf or nan (a division by zero) [Qdiv] produces 0; every
      statement that depends on a quotient assumes its divisor non-zero.
    - Python exceptions are values of [exn]; code that may raise lives in
      the [result] monad and an exception propagates through [mbind]
      unless a [try_except] catches it.
    - An Axes object is the list of drawing calls made on it, in order.
      Axis titles, tick sizes, limits and figure geometry are not
      recorded.
    - What plot.py obtains from other packages (the Lomb-Scargle
      periodogram, the boxcar convolution, the GP prediction) is a
      parameter of the development. *)

From Stdlib Require Import QArith Qfield Lia.
From stdpp Require Import base option list gmap strings.

Local Open Scope string_scope.
Local Open Scope list_scope.

(** ** Exceptions *)

Inductive exn :=
| AttributeError (attr : string)
| KeyError (key : string)
| ValueError
| IndexError.

Inductive result (A : Type) :=
| Ok (a : A)
| Raise (e : exn).
Arguments Ok {A} a.
Arguments Raise {A} e.

#[global] Instance result_ret : MRet result := fun _ a => Ok a.
#[global] Instance result_bind : MBind result := fun _ _ f r =>
  match r with
  | Ok a => f a
  | Raise e => Raise e
  end.

(** [try: body except AttributeError: handler] *)
Definition try_except_AttributeError {A} (body handler : result A) : result A :=
  match body with
  | Raise (AttributeError _) => handler
  | r => r
  end.

(** ** numpy arrays *)

Definition np_zeros (n : nat) : list Q := replicate n 0%Q.

(** [a += b] for one-dimensional [a] and [b]: element-wise when the
    shapes agree, [b] broadcast when it has one element, and a
    [ValueError] otherwise (the result must keep the shape of [a]). *)
Definition iadd (a b : list Q) : result (list Q) :=
  if decide (length b = length a) then Ok (zip_with Qplus a b)
  else match b with
       | [y] => Ok ((fun x => x + y)%Q <$> a)
       | _ => Raise ValueError
       end.

(** [a += c] for a scalar [c]. *)
Definition iadd_scalar (a : list Q) (c : Q) : list Q := (fun x => x + c)%Q <$> a.

(** [a op b] out of place: shapes agree, or one side has one element. *)
Definition np_binop (op : Q -> Q -> Q) (a b : list Q) : result (list Q) :=
  if decide (length a = length b) then Ok (zip_with op a b)
  else match a, b with
       | _, [y] => Ok ((fun x => op x y) <$> a)
       | [x], _ => Ok (op x <$> b)
       | _, _ => Raise ValueError
       end.

(** [a[i]] for [i >= 0], and [a[-1]]. *)
Definition getitem (a : list Q) (i : nat) : result Q :=
  match a !! i with
  | Some x => Ok x
  | None => Raise IndexError
  end.

Definition getitem_last (a : list Q) : result Q :=
  match last a with
  | Some x => Ok x
  | None => Raise IndexError
  end.

(** Python's builtin [sum]: left to right from 0. *)
Definition py_sum (a : list Q) : Q := fold_left Qplus a 0%Q.

Definition size (a : list Q) : Q := inject_Z (Z.of_nat (length a)).

Definition np_mean (a : list Q) : Q := (py_sum a / size a)%Q.

(** [np.var] with its default [ddof=0]: the mean squared deviation. *)
Definition np_var (a : list Q) : Q :=
  let m := np_mean a in
  np_mean ((fun x => (x - m) * (x - m))%Q <$> a).

(** [np.linspace(start, stop, num)] *)
Definition np_linspace (start stop : Q) (num : nat) : list Q :=
  let step := ((stop - start) / (inject_Z (Z.of_nat num) - 1))%Q in
  (fun i => start + inject_Z (Z.of_nat i) * step)%Q <$> seq 0 num.

(** ** dict *)

(** [d[k]] *)
Definition dict_getitem {V} (d : gmap string V) (k : string) : result V :=
  match d !! k with
  | Some v => Ok v
  | None => Raise (KeyError k)
  end.

(** ** The drawing calls *)

(** The value passed as [yerr]: [None] or an array. *)
Inductive yerr_t :=
| PyNone
| Arr (a : list Q).

Inductive artist :=
| Errorbar (x y : list Q) (yerr : yerr_t)
| Plot (x y : list Q) (label : string)
| FillBetween (x y1 y2 : list Q) (label : string)
| LogLog (x y : list Q) (extra : list Z) (ls : option string) (color : string)
         (alpha : option Q) (label : option string).

Definition artist_label (a : artist) : option string :=
  match a with
  | Errorbar _ _ _ => Some "Flux"
  | Plot _ _ l => Some l
  | FillBetween _ _ _ l => Some l
  | LogLog _ _ _ _ _ _ l => l
  end.

(** ** The model object *)

Record Model := {
  time : list Q;
  flux : list Q;
  (** the [error] attribute; [None] when the object has no such attribute *)
  error : option yerr_t;
  (** [model.gp.gp_model.get_psd] *)
  get_psd : list Q -> list Q * list (string * list Q);
}.

(** [model.error] *)
Definition getattr_error (model : Model) : result yerr_t :=
  match error model with
  | Some v => Ok v
  | None => Raise (AttributeError "error")
  end.

(** ** plot_psd *)

Definition ls_dict : gmap string string :=
  list_to_map [("Granulation", "--"); ("OscillationBump", "-."); ("WhiteNoise", ":")].
Definition alpha_dict : gmap string Q :=
  list_to_map [("Granulation", 8 # 10); ("OscillationBump", 8 # 10); ("WhiteNoise", 6 # 10)].
Definition label_dict : gmap string string :=
  list_to_map [("Granulation", "Granulation"); ("OscillationBump", "Gaussian envelope");
               ("WhiteNoise", "White noise")].

(** The locals of [plot_psd] that the loop updates, and the Axes. *)
Record psd_state := {
  nobump_power : list Q;
  full_power : list Q;
  unique_labels : list string;
  ax : list artist;
}.

(** Lines 76-82: the state before the loop. *)
Definition psd_init (freq : list Q) : psd_state :=
  {| nobump_power := np_zeros (length freq);
     full_power := np_zeros (length freq);
     unique_labels := [];
     ax := [] |}.

(** Lines 84-95: one iteration of [for name, power in power_list]. *)
Definition psd_step (freq : list Q) (st : psd_state) (c : string * list Q)
  : result psd_state :=
  let name := c.1 in
  let power := c.2 in
  let power := if decide (name = "WhiteNoise") then iadd_scalar power 0 else power in
  nobump ← (if decide (name ≠ "OscillationBump") then iadd (nobump_power st) power
            else Ok (nobump_power st));
  full ← iadd (full_power st) power;
  lbl ← dict_getitem label_dict name;
  if decide (lbl ∉ unique_labels st) then
    ls ← dict_getitem ls_dict name;
    alpha ← dict_getitem alpha_dict name;
    lbl' ← dict_getitem label_dict name;
    Ok {| nobump_power := nobump; full_power := full;
          unique_labels := unique_labels st ++ [lbl];
          ax := ax st ++ [LogLog freq power [] (Some ls) "b" (Some alpha) (Some lbl')] |}
  else
    ls ← dict_getitem ls_dict name;
    alpha ← dict_getitem alpha_dict name;
    Ok {| nobump_power := nobump; full_power := full;
          unique_labels := unique_labels st;
          ax := ax st ++ [LogLog freq power [] (Some ls) "b" (Some alpha) None] |}.

Fixpoint psd_loop (freq : list Q) (st : psd_state) (power_list : list (string * list Q))
  : result psd_state :=
  match power_list with
  | [] => Ok st
  | c :: rest => st' ← psd_step freq st c; psd_loop freq st' rest
  end.

(** Lines 97-98: the two aggregate curves are drawn after the loop. *)
Definition psd_draw_totals (freq : list Q) (st : psd_state) : psd_state :=
  {| nobump_power := nobump_power st; full_power := full_power st;
     unique_labels := unique_labels st;
     ax := ax st ++
       [LogLog freq (nobump_power st) [] (Some "--") "r" (Some (8 # 10)) (Some "Model without gaussian");
        LogLog freq (full_power st) [] (Some "-") "r" None (Some "Full Model")] |}.

(** Lines 75-98. *)
Definition psd_components (freq : list Q) (power_list : list (string * list Q))
  : result psd_state :=
  st ← psd_loop freq (psd_init freq) power_list;
  Ok (psd_draw_totals freq st).

(** Lines 109-117: the normalisation of the empirical power. [freq2] and
    [power] are what the periodogram returned. *)
Definition psd_normalize (model : Model) (parseval_norm : bool) (freq2 power : list Q)
  : result (list Q) :=
  if parseval_norm then
    f1 ← getitem freq2 1;
    f0 ← getitem freq2 0;
    let resolution := (f1 - f0)%Q in
    let variance := np_var (flux model) in
    Ok ((fun p => (p * variance / py_sum power) / resolution)%Q <$> power)
  else
    Ok ((fun p => p / size (time model))%Q <$> power).

(** Lines 20-23 of [plot_gp]: the error bars, absent when the model
    carries none. *)
Definition plot_gp_err (model : Model) : result yerr_t :=
  try_except_AttributeError (getattr_error model) (Ok PyNone).

(** [err[:150]], guarded by [if err is not None]. *)
Definition err_zoom (err : yerr_t) : yerr_t :=
  match err with
  | PyNone => PyNone
  | Arr a => Arr (take 150 a)
  end.

Definition per_day (a : list Q) : list Q := (fun t => t / (24 * 3600))%Q <$> a.

Record gp_figures := {
  gp_plot : list artist;
  zoom_plot : list artist;
}.

Section External.

(** [LombScargle(t, y).autopower(nyquist_factor=1, normalization='psd',
    samples_per_peak=1)]: the frequencies and the power. *)
Variable LombScargle_autopower : list Q -> list Q -> list Q * list Q.

(** [convolve(power, Box1DKernel(width))] *)
Variable convolve_Box1DKernel : nat -> list Q -> list Q.

(** Lines 28-31 of [plot_gp]: the predictive mean at [x] and the
    standard deviation with the jitter term folded in. *)
Variable gp_predict : Model -> list Q -> result (list Q * list Q).

(** Lines 105-121: the empirical spectrum, normalised, drawn raw and
    smoothed. *)
Definition psd_data (model : Model) (parseval_norm : bool) (st : psd_state)
  : result psd_state :=
  let fp := LombScargle_autopower ((fun t => t / 1000000)%Q <$> time model) (flux model) in
  power ← psd_normalize model parseval_norm fp.1 fp.2;
  Ok {| nobump_power := nobump_power st; full_power := full_power st;
        unique_labels := unique_labels st;
        ax := ax st ++
          [LogLog fp.1 power [5%Z] None "k" (Some (3 # 10)) None;
           LogLog fp.1 (convolve_Box1DKernel 10 power) [] None "k" (Some (5 # 10)) None] |}.

Definition plot_psd (model : Model) (include_data parseval_norm : bool)
  : result psd_state :=
  let fp := get_psd model (time model) in
  st ← psd_components fp.1 fp.2;
  if include_data then psd_data model parseval_norm st else Ok st.

Definition plot_gp (model : Model) : result gp_figures :=
  err ← plot_gp_err model;
  t0 ← getitem (time model) 0;
  tl ← getitem_last (time model);
  let x := np_linspace t0 tl (2 * length (time model)) in
  ms ← gp_predict model x;
  let mu := ms.1 in
  let std_jitter := ms.2 in
  upper ← np_binop Qplus mu std_jitter;
  lower ← np_binop Qminus mu std_jitter;
  upper_zoom ← np_binop Qplus (take 300 mu) (take 300 std_jitter);
  lower_zoom ← np_binop Qminus (take 300 mu) (take 300 std_jitter);
  Ok {| gp_plot :=
          [Errorbar (per_day (time model)) (flux model) err;
           Plot (per_day x) mu "Mean";
           FillBetween (per_day x) upper lower "1$\sigma$"];
        zoom_plot :=
          [Errorbar (per_day (take 150 (time model))) (take 150 (flux model)) (err_zoom err);
           Plot (per_day (take 300 x)) (take 300 mu) "Mean";
           FillBetween (per_day (take 300 x)) upper_zoom lower_zoom "1$\sigma$"] |}.

End External.

(** ** The aggregation without the white-noise adjustment

    The procedure of [psd_step] and [psd_loop] with lines 85-86 removed:
    the reference the adjustment is compared with. *)

Definition psd_step_unadjusted (freq : list Q) (st : psd_state) (c : string * list Q)
  : result psd_state :=
  let name := c.1 in
  let power := c.2 in
  nobump ← (if decide (name ≠ "OscillationBump") then iadd (nobump_power st) power
            else Ok (nobump_power st));
  full ← iadd (full_power st) power;
  lbl ← dict_getitem label_dict name;
  if decide (lbl ∉ unique_labels st) then
    ls ← dict_getitem ls_dict name;
    alpha ← dict_getitem alpha_dict name;
    lbl' ← dict_getitem label_dict name;
    Ok {| nobump_power := nobump; full_power := full;
          unique_labels := unique_labels st ++ [lbl];
          ax := ax st ++ [LogLog freq power [] (Some ls) "b" (Some alpha) (Some lbl')] |}
  else
    ls ← dict_getitem ls_dict name;
    alpha ← dict_getitem alpha_dict name;
    Ok {| nobump_power := nobump; full_power := full;
          unique_labels := unique_labels st;
          ax := ax st ++ [LogLog freq power [] (Some ls) "b" (Some alpha) None] |}.

Fixpoint psd_loop_unadjusted (freq : list Q) (st : psd_state)
  (power_list : list (string * list Q)) : result psd_state :=
  match power_list with
  | [] => Ok st
  | c :: rest => st' ← psd_step_unadjusted freq st c; psd_loop_unadjusted freq st' rest
  end.

(** ** Vocabulary of the statements *)

(** The keys of the three dictionaries of [plot_psd]. *)
Definition component_names : list string := ["Granulation"; "OscillationBump"; "WhiteNoise"].

(** The legend label of a component name. *)
Definition label_of (name : string) : string := default "" (label_dict !! name).

(** The components are evaluated on the grid [freq]: every curve is aligned
    with it index for index, and every name is one of [component_names]. *)
Definition on_grid (freq : list Q) (power_list : list (string * list Q)) : Prop :=
  Forall (fun c => length c.2 = length freq) power_list.

Definition named (power_list : list (string * list Q)) : Prop :=
  Forall (fun c => c.1 ∈ component_names) power_list.

(** The element-wise sum of curves of length [N], from an all-zero curve:
    entry [i] adds up entry [i] of every curve, in order. *)
Definition elementwise_sum (N : nat) (curves : list (list Q)) : list Q :=
  (fun i => py_sum ((fun c => nth i c 0%Q) <$> curves)) <$> seq 0 N.

(** The curves of the components called "OscillationBump", and of the
    others. *)
Definition bump_curves (power_list : list (string * list Q)) : list (list Q) :=
  (filter (fun c => c.1 = "OscillationBump") power_list).*2.

Definition nobump_curves (power_list : list (string * list Q)) : list (list Q) :=
  (filter (fun c => c.1 ≠ "OscillationBump") power_list).*2.

(** The distinct elements of a list, each at its first occurrence. *)
Fixpoint first_occurrences (l : list string) : list string :=
  match l with
  | [] => []
  | x :: l' => x :: filter (fun y => y ≠ x) (first_occurrences l')
  end.

(** A frequency grid: positive and strictly increasing. *)
Definition frequency_grid (freq : list Q) : Prop :=
  Forall (fun f => (0 < f)%Q) freq /\
  forall i j x y, i < j -> freq !! i = Some x -> freq !! j = Some y -> (x < y)%Q.

Definition scenario : list (string * list Q) :=
  [("Granulation", [4; 2; 1]%Q); ("OscillationBump", [0; 3; 0]%Q); ("WhiteNoise", [1; 1; 1]%Q)].

(** What holds of the locals once the loop has consumed [power_list]. *)
Definition psd_inv (freq : list Q) (power_list : list (string * list Q)) (st : psd_state)
  : Prop :=
  full_power st = elementwise_sum (length freq) power_list.*2 /\
  nobump_power st = elementwise_sum (length freq) (nobump_curves power_list) /\
  unique_labels st = label_of <$> first_occurrences power_list.*1 /\
  length (ax st) = length power_list /\
  forall i c, power_list !! i = Some c ->
    exists ls alpha,
      dict_getitem ls_dict c.1 = Ok ls /\
      dict_getitem alpha_dict c.1 = Ok alpha /\
      ax st !! i = Some (LogLog freq c.2 [] (Some ls) "b" (Some alpha)
                           (if decide (c.1 ∈ take i power_list.*1) then None
                            else Some (label_of c.1))).

(** The reading of the two aggregates under which the curve of any one
    component called "OscillationBump" accounts for their whole
    difference. *)
Definition nobump_is_full_minus_bump (freq : list Q) (power_list : list (string * list Q))
  : Prop :=
  forall st, psd_components freq power_list = Ok st ->
    (forall b, ("OscillationBump", b) ∈ power_list ->
       forall i, i < length freq ->
         (nth i (nobump_power st) 0 == nth i (full_power st) 0 - nth i b 0)%Q) /\
    ((forall b, ("OscillationBump", b) ∉ power_list) -> nobump_power st = full_power st).

Definition two_bumps : list (string * list Q) :=
  [("OscillationBump", [1]%Q); ("OscillationBump", [1]%Q)].

(** Sample inputs: a model whose spectrum is [scenario], one with a
    component the dictionaries do not know, and stand-ins for the
    periodogram, the smoothing and the GP prediction. *)
Definition scenario_model : Model :=
  {| time := [0; 1; 2; 3]%Q; flux := [1; 3; 1; 3]%Q; error := None;
     get_psd := fun _ => ([1; 2; 3]%Q, scenario) |}.

Definition activity_model : Model :=
  {| time := [0; 1; 2; 3]%Q; flux := [1; 3; 1; 3]%Q; error := Some (Arr [1; 1; 1; 1]%Q);
     get_psd := fun _ => ([1; 2; 3]%Q,
                          [("Granulation", [4; 2; 1]%Q); ("Activity", [1; 1; 1]%Q)]) |}.

Definition sample_periodogram (t y : list Q) : list Q * list Q :=
  ([1; 2; 3; 4]%Q, [2; 2; 2; 2]%Q).

Definition sample_convolve (width : nat) (power : list Q) : list Q := power.

Definition sample_predict (model : Model) (x : list Q) : result (list Q * list Q) :=
  Ok (x, (fun _ => 1%Q) <$> x).

(** Further sample inputs: a model with a curve that is not aligned with
    the grid, and a periodogram on a single frequency. *)
Definition misaligned_model : Model :=
  {| time := [0; 1; 2; 3]%Q; flux := [1; 3; 1; 3]%Q; error := None;
     get_psd := fun _ => ([1; 2; 3]%Q,
                          [("Granulation", [4; 2; 1]%Q); ("Activity", [1; 1]%Q)]) |}.

Definition short_periodogram (t y : list Q) : list Q * list Q := ([1]%Q, [2]%Q).

(** ** Arithmetic of the curves *)

Lemma Qplus_0_r_eq (x : Q) : (x + 0)%Q = x.
Proof.
  destruct x as [n d]. unfold Qplus. cbn [Qnum Qden].
  f_equal; [lia | apply Pos.mul_1_r].
Qed.

Lemma iadd_scalar_0 (a : list Q) : iadd_scalar a 0 = a.
Proof.
  unfold iadd_scalar. induction a as [|x a IH]; [done|].
  rewrite fmap_cons, IH, Qplus_0_r_eq. done.
Qed.

Lemma iadd_same_length (a b : list Q) :
  length b = length a -> iadd a b = Ok (zip_with Qplus a b).
Proof. intros H. unfold iadd. by rewrite decide_True. Qed.

Lemma py_sum_snoc (l : list Q) (x : Q) : py_sum (l ++ [x]) = (py_sum l + x)%Q.
Proof. unfold py_sum. by rewrite fold_left_app. Qed.

Lemma fold_left_Qplus_acc (l : list Q) (a : Q) :
  (fold_left Qplus l a == a + py_sum l)%Q.
Proof.
  unfold py_sum. revert a. induction l as [|x l IH]; intros a; simpl.
  - ring.
  - rewrite IH, (IH (0 + x)%Q). ring.
Qed.

Lemma py_sum_cons (x : Q) (l : list Q) : (py_sum (x :: l) == x + py_sum l)%Q.
Proof. unfold py_sum at 1. simpl. rewrite fold_left_Qplus_acc. ring. Qed.

Lemma length_elementwise_sum N curves : length (elementwise_sum N curves) = N.
Proof. unfold elementwise_sum. by rewrite length_fmap, length_seq. Qed.

Lemma lookup_elementwise_sum N curves i :
  i < N ->
  elementwise_sum N curves !! i = Some (py_sum ((fun c => nth i c 0%Q) <$> curves)).
Proof.
  intros Hi. unfold elementwise_sum.
  rewrite list_lookup_fmap, lookup_seq_lt by done. done.
Qed.

Lemma elementwise_sum_nil N : elementwise_sum N [] = np_zeros N.
Proof.
  apply list_eq. intros i. unfold np_zeros.
  destruct (decide (i < N)) as [Hi|Hi].
  - rewrite lookup_elementwise_sum by done. by rewrite lookup_replicate_2.
  - rewrite !lookup_ge_None_2; [done| |].
    + rewrite length_replicate. lia.
    + rewrite length_elementwise_sum. lia.
Qed.

Lemma elementwise_sum_snoc N curves (p : list Q) :
  length p = N ->
  zip_with Qplus (elementwise_sum N curves) p = elementwise_sum N (curves ++ [p]).
Proof.
  intros Hp. apply list_eq. intros i.
  rewrite lookup_zip_with.
  destruct (decide (i < N)) as [Hi|Hi].
  - rewrite !lookup_elementwise_sum by done.
    rewrite fmap_app. cbn [fmap list_fmap]. rewrite py_sum_snoc.
    destruct (lookup_lt_is_Some_2 p i) as [x Hx]; [lia|].
    rewrite Hx. simpl. by rewrite (nth_lookup_Some _ _ _ _ Hx).
  - rewrite (lookup_ge_None_2 (elementwise_sum N curves)), (lookup_ge_None_2 (elementwise_sum N (curves ++ [p])));
      rewrite ?length_elementwise_sum; [done|lia|lia].
Qed.

(** ** The dictionaries *)

Lemma elem_of_component_names name :
  name ∈ component_names <->
  name = "Granulation" \/ name = "OscillationBump" \/ name = "WhiteNoise".
Proof.
  unfold component_names. rewrite !elem_of_cons, elem_of_nil. tauto.
Qed.

Lemma dict_getitem_known name :
  name ∈ component_names ->
  exists ls alpha,
    dict_getitem ls_dict name = Ok ls /\
    dict_getitem alpha_dict name = Ok alpha /\
    dict_getitem label_dict name = Ok (label_of name).
Proof.
  rewrite elem_of_component_names.
  intros [-> | [-> | ->]]; eexists _, _; repeat split; vm_compute; reflexivity.
Qed.

Lemma label_dict_unknown name :
  name ∉ component_names -> dict_getitem label_dict name = Raise (KeyError name).
Proof.
  rewrite elem_of_component_names. intros Hn.
  unfold dict_getitem, label_dict. cbn [list_to_map foldr uncurry fst snd].
  rewrite !lookup_insert_ne, lookup_empty by (intros <-; tauto). done.
Qed.

Lemma label_of_inj a b :
  a ∈ component_names -> b ∈ component_names -> label_of a = label_of b -> a = b.
Proof.
  rewrite !elem_of_component_names.
  intros [-> | [-> | ->]] [-> | [-> | ->]]; vm_compute; congruence.
Qed.

(** ** First occurrences *)

Lemma elem_of_first_occurrences x l : x ∈ first_occurrences l <-> x ∈ l.
Proof.
  induction l as [|a l IH]; simpl; [done|].
  rewrite !elem_of_cons, list_elem_of_filter, IH.
  destruct (decide (x = a)); tauto.
Qed.

Lemma NoDup_first_occurrences l : NoDup (first_occurrences l).
Proof.
  induction l as [|a l IH]; simpl; [constructor|].
  constructor.
  - rewrite list_elem_of_filter. tauto.
  - by apply NoDup_filter.
Qed.

Lemma first_occurrences_snoc l x :
  first_occurrences (l ++ [x]) =
  if decide (x ∈ l) then first_occurrences l else first_occurrences l ++ [x].
Proof.
  induction l as [|a l IH]; [reflexivity|].
  cbn [app first_occurrences]. rewrite IH.
  destruct (decide (x ∈ l)) as [Hin|Hin]; destruct (decide (x ∈ a :: l)) as [Hin'|Hin'].
  - done.
  - exfalso. apply Hin', elem_of_cons. tauto.
  - apply elem_of_cons in Hin' as [->|]; [|done].
    rewrite filter_app. cbn [filter list_filter].
    destruct (decide (a <> a)); [done | by rewrite app_nil_r].
  - rewrite filter_app. cbn [filter list_filter].
    destruct (decide (x <> a)) as [|Heq]; [done|].
    exfalso. apply Hin', elem_of_cons. left. by destruct (decide (x = a)).
Qed.

Lemma elem_of_labels_first_occurrences name names :
  name ∈ component_names ->
  Forall (fun n => n ∈ component_names) names ->
  label_of name ∈ label_of <$> first_occurrences names <-> name ∈ names.
Proof.
  intros Hn Hall. rewrite list_elem_of_fmap. split.
  - intros (y & Heq & Hy). rewrite elem_of_first_occurrences in Hy.
    rewrite Forall_forall in Hall.
    by rewrite (label_of_inj name y Hn (Hall y Hy) Heq).
  - intros Hin. exists name. by rewrite elem_of_first_occurrences.
Qed.

(** ** The loop *)

Lemma psd_loop_snoc freq st power_list c :
  psd_loop freq st (power_list ++ [c]) =
  (st' ← psd_loop freq st power_list; psd_step freq st' c).
Proof.
  revert st. induction power_list as [|a pl IH]; intros st; simpl.
  - by destruct (psd_step freq st c).
  - destruct (psd_step freq st a) as [st1|e]; simpl; [apply IH | done].
Qed.

Lemma psd_step_known freq st name power :
  name ∈ component_names ->
  length power = length (full_power st) ->
  length (nobump_power st) = length (full_power st) ->
  exists ls alpha,
    dict_getitem ls_dict name = Ok ls /\
    dict_getitem alpha_dict name = Ok alpha /\
    psd_step freq st (name, power) = Ok
      {| nobump_power := if decide (name ≠ "OscillationBump")
                         then zip_with Qplus (nobump_power st) power
                         else nobump_power st;
         full_power := zip_with Qplus (full_power st) power;
         unique_labels := if decide (label_of name ∉ unique_labels st)
                          then unique_labels st ++ [label_of name]
                          else unique_labels st;
         ax := ax st ++
           [LogLog freq power [] (Some ls) "b" (Some alpha)
              (if decide (label_of name ∉ unique_labels st)
               then Some (label_of name) else None)] |}.
Proof.
  intros Hn Hp Hnb.
  destruct (dict_getitem_known name Hn) as (ls & alpha & Hls & Ha & Hl).
  exists ls, alpha. split; [done|]. split; [done|].
  unfold psd_step. cbn [fst snd]. cbv zeta.
  replace (if decide (name = "WhiteNoise") then iadd_scalar power 0 else power)
    with power by (case_decide; by rewrite ?iadd_scalar_0).
  rewrite (iadd_same_length (full_power st)) by done.
  assert (Hstep : forall nb,
    (nobump ← Ok nb; full ← Ok (zip_with Qplus (full_power st) power);
     lbl ← dict_getitem label_dict name;
     if decide (lbl ∉ unique_labels st) then
       ls ← dict_getitem ls_dict name;
       alpha ← dict_getitem alpha_dict name;
       lbl' ← dict_getitem label_dict name;
       Ok {| nobump_power := nobump; full_power := full;
             unique_labels := unique_labels st ++ [lbl];
             ax := ax st ++ [LogLog freq power [] (Some ls) "b" (Some alpha) (Some lbl')] |}
     else
       ls ← dict_getitem ls_dict name;
       alpha ← dict_getitem alpha_dict name;
       Ok {| nobump_power := nobump; full_power := full;
             unique_labels := unique_labels st;
             ax := ax st ++ [LogLog freq power [] (Some ls) "b" (Some alpha) None] |}) =
    Ok {| nobump_power := nb;
          full_power := zip_with Qplus (full_power st) power;
          unique_labels := if decide (label_of name ∉ unique_labels st)
                           then unique_labels st ++ [label_of name]
                           else unique_labels st;
          ax := ax st ++
            [LogLog freq power [] (Some ls) "b" (Some alpha)
               (if decide (label_of name ∉ unique_labels st)
                then Some (label_of name) else None)] |}).
  { intros nb. rewrite Hl, Hls, Ha. unfold mbind, result_bind.
    by destruct (decide (label_of name ∉ unique_labels st)). }
  destruct (decide (name ≠ "OscillationBump")).
  - rewrite iadd_same_length by congruence. apply Hstep.
  - apply Hstep.
Qed.

Lemma nobump_curves_snoc power_list name power :
  nobump_curves (power_list ++ [(name, power)]) =
  nobump_curves power_list ++ (if decide (name ≠ "OscillationBump") then [power] else []).
Proof.
  unfold nobump_curves. rewrite filter_app, fmap_app. f_equal.
  cbn [filter list_filter fst]. by destruct (decide (name ≠ "OscillationBump")).
Qed.

Lemma psd_loop_inv freq power_list :
  on_grid freq power_list -> named power_list ->
  exists st, psd_loop freq (psd_init freq) power_list = Ok st /\ psd_inv freq power_list st.
Proof.
  induction power_list as [|[name power] pl IH] using rev_ind; intros Hg Hn.
  - exists (psd_init freq). split; [done|].
    unfold psd_inv, nobump_curves. cbn. rewrite elementwise_sum_nil.
    repeat split; done.
  - apply Forall_app in Hg as [Hg Hc]. apply Forall_app in Hn as [Hn Hcn].
    rewrite Forall_singleton in Hc. rewrite Forall_singleton in Hcn. cbn [fst snd] in Hc, Hcn.
    destruct (IH Hg Hn) as (st & Hrun & Hfull & Hnb & Hul & Hlen & Hax).
    destruct (psd_step_known freq st name power) as (ls & alpha & Hls & Ha & Hstep).
    { done. }
    { by rewrite Hfull, length_elementwise_sum. }
    { by rewrite Hfull, Hnb, !length_elementwise_sum. }
    eexists. split.
    { rewrite psd_loop_snoc, Hrun. exact Hstep. }
    assert (Hnew : label_of name ∉ unique_labels st <-> name ∉ pl.*1).
    { rewrite Hul. apply not_iff_compat, elem_of_labels_first_occurrences; [done|].
      unfold named in Hn. rewrite Forall_fmap. exact Hn. }
    unfold psd_inv. cbn [nobump_power full_power unique_labels ax].
    split; [|split; [|split; [|split]]].
    + rewrite Hfull, fmap_app. by apply elementwise_sum_snoc.
    + rewrite nobump_curves_snoc. destruct (decide (name ≠ "OscillationBump")).
      * rewrite Hnb. by apply elementwise_sum_snoc.
      * by rewrite app_nil_r.
    + rewrite fmap_app. cbn [fmap list_fmap fst]. rewrite first_occurrences_snoc.
      destruct (decide (label_of name ∉ unique_labels st)) as [Hl|Hl];
        destruct (decide (name ∈ pl.*1)) as [Hi|Hi]; try tauto.
      by rewrite fmap_app, Hul.
    + rewrite !length_app, Hlen. done.
    + intros i c Hi. rewrite fmap_app.
      destruct (decide (i < length pl)) as [Hlt|Hge].
      * rewrite lookup_app_l in Hi by done.
        destruct (Hax i c Hi) as (ls' & alpha' & ? & ? & Hd).
        exists ls', alpha'. split; [done|]. split; [done|].
        rewrite lookup_app_l by lia.
        rewrite take_app_le by (rewrite length_fmap; lia). done.
      * rewrite lookup_app_r in Hi by lia.
        assert (i = length pl) as ->.
        { apply lookup_lt_Some in Hi. simpl in Hi. lia. }
        rewrite Nat.sub_diag in Hi. injection Hi as <-. cbn [fst snd].
        exists ls, alpha. split; [done|]. split; [done|].
        rewrite lookup_app_r by lia. rewrite Hlen, Nat.sub_diag. cbn.
        rewrite take_app_length' by (by rewrite length_fmap).
        destruct (decide (label_of name ∉ unique_labels st)) as [Hl|Hl];
          destruct (decide (name ∈ pl.*1)) as [Hi|Hi]; try tauto; done.
Qed.

Lemma psd_components_inv freq power_list :
  on_grid freq power_list -> named power_list ->
  exists st0,
    psd_inv freq power_list st0 /\
    psd_components freq power_list = Ok (psd_draw_totals freq st0).
Proof.
  intros Hg Hn. destruct (psd_loop_inv freq power_list Hg Hn) as (st0 & Hrun & Hinv).
  exists st0. split; [done|]. unfold psd_components. by rewrite Hrun.
Qed.

Lemma nth_elementwise_sum N curves i :
  i < N -> nth i (elementwise_sum N curves) 0%Q = py_sum ((fun c => nth i c 0%Q) <$> curves).
Proof.
  intros Hi. apply nth_lookup_Some with (d := 0%Q). by apply lookup_elementwise_sum.
Qed.

Lemma Qplus_middle (a u v : Q) : (a + (u + v) == u + (a + v))%Q.
Proof. ring. Qed.

Lemma py_sum_bump_split i power_list :
  (py_sum ((fun c => nth i c 0) <$> power_list.*2) ==
   py_sum ((fun c => nth i c 0) <$> nobump_curves power_list) +
   py_sum ((fun c => nth i c 0) <$> bump_curves power_list))%Q.
Proof.
  unfold nobump_curves, bump_curves.
  induction power_list as [|[name p] pl IH].
  - reflexivity.
  - cbn [fmap list_fmap filter list_filter fst snd].
    destruct (decide (name = "OscillationBump")) as [Hb|Hb].
    + rewrite decide_False by tauto. cbn [fmap list_fmap snd].
      rewrite !py_sum_cons, IH. apply Qplus_middle.
    + rewrite decide_True by done. cbn [fmap list_fmap snd].
      rewrite !py_sum_cons, IH. apply Qplus_assoc.
Qed.

Lemma nobump_curves_all power_list :
  bump_curves power_list = [] -> nobump_curves power_list = power_list.*2.
Proof.
  unfold nobump_curves, bump_curves.
  induction power_list as [|[name p] pl IH]; [done|].
  cbn [fmap list_fmap filter list_filter fst snd].
  destruct (decide (name = "OscillationBump")) as [Hb|Hb]; [done|].
  rewrite decide_True by done. cbn [fmap list_fmap snd]. intros H.
  f_equal. by apply IH.
Qed.

Lemma filter_eq_once (x : string) (l : list string) :
  NoDup l -> x ∈ l -> length (filter (fun y => y = x) l) = 1.
Proof.
  induction 1 as [|a l Ha Hl IH]; intros Hx; [by apply elem_of_nil in Hx|].
  cbn [filter list_filter]. apply elem_of_cons in Hx as [->|Hx].
  - rewrite decide_True by done. cbn [length]. f_equal.
    destruct (filter (fun y => y = a) l) as [|y k] eqn:E; [done|].
    assert (Hy : y ∈ filter (fun y => y = a) l) by (rewrite E; apply elem_of_cons; tauto).
    apply list_elem_of_filter in Hy as [-> Hy]. done.
  - rewrite decide_False by (intros ->; done). by apply IH.
Qed.

Lemma named_names power_list name :
  named power_list -> name ∈ power_list.*1 -> name ∈ component_names.
Proof.
  intros Hn Hin. apply list_elem_of_fmap in Hin as (c & -> & Hc).
  unfold named in Hn. rewrite Forall_forall in Hn. by apply Hn.
Qed.

(** ** The aggregate curves *)

(** C1. For named components on a shared grid of length N, [full_power]
    starts as the all-zero curve of length N and ends as the element-wise
    sum of all component curves, of length N. *)
Theorem full_power_is_elementwise_sum freq power_list :
  on_grid freq power_list -> named power_list ->
  full_power (psd_init freq) = np_zeros (length freq) /\
  exists st,
    psd_components freq power_list = Ok st /\
    full_power st = elementwise_sum (length freq) power_list.*2 /\
    length (full_power st) = length freq /\
    forall i, i < length freq ->
      full_power st !! i = Some (py_sum ((fun c => nth i c.2 0%Q) <$> power_list)).
Proof.
  intros Hg Hn. split; [done|].
  destruct (psd_components_inv freq power_list Hg Hn) as (st0 & Hinv & Hrun).
  destruct Hinv as (Hfull & _).
  exists (psd_draw_totals freq st0). split; [done|]. cbn [psd_draw_totals full_power].
  rewrite Hfull. split; [done|]. split; [apply length_elementwise_sum|].
  intros i Hi. rewrite lookup_elementwise_sum by done.
  by rewrite <- list_fmap_compose.
Qed.

Lemma full_power_is_elementwise_sum_witness :
  on_grid [1; 2; 3]%Q scenario /\ named scenario /\
  exists st,
    psd_components [1; 2; 3]%Q scenario = Ok st /\
    full_power st = elementwise_sum 3 scenario.*2 /\
    length (full_power st) = 3 /\
    forall i, i < 3 ->
      full_power st !! i = Some (py_sum ((fun c => nth i c.2 0%Q) <$> scenario)).
Proof.
  assert (Hg : on_grid [1; 2; 3]%Q scenario) by (repeat constructor).
  assert (Hn : named scenario)
    by (repeat constructor; apply elem_of_component_names; cbn; tauto).
  split; [exact Hg|]. split; [exact Hn|].
  exact (proj2 (full_power_is_elementwise_sum [1; 2; 3]%Q scenario Hg Hn)).
Defined.

(** C2, as the code has it. [nobump_power] is [full_power] less the
    element-wise sum of the curves of all components called
    "OscillationBump": less that one curve when there is exactly one, and
    [full_power] itself when there is none. *)
Theorem nobump_power_is_full_minus_bumps freq power_list :
  on_grid freq power_list -> named power_list ->
  exists st,
    psd_components freq power_list = Ok st /\
    (forall i, i < length freq ->
       (nth i (nobump_power st) 0 ==
        nth i (full_power st) 0 -
        nth i (elementwise_sum (length freq) (bump_curves power_list)) 0)%Q) /\
    (forall b, bump_curves power_list = [b] ->
       forall i, i < length freq ->
         (nth i (nobump_power st) 0 == nth i (full_power st) 0 - nth i b 0)%Q) /\
    (bump_curves power_list = [] -> nobump_power st = full_power st).
Proof.
  intros Hg Hn.
  destruct (psd_components_inv freq power_list Hg Hn) as (st0 & Hinv & Hrun).
  destruct Hinv as (Hfull & Hnb & _).
  exists (psd_draw_totals freq st0). split; [done|].
  cbn [psd_draw_totals full_power nobump_power]. rewrite Hfull, Hnb.
  assert (Hgen : forall i, i < length freq ->
    (nth i (elementwise_sum (length freq) (nobump_curves power_list)) 0 ==
     nth i (elementwise_sum (length freq) power_list.*2) 0 -
     nth i (elementwise_sum (length freq) (bump_curves power_list)) 0)%Q).
  { intros i Hi. rewrite !nth_elementwise_sum by done.
    rewrite (py_sum_bump_split i power_list). apply Qplus_inj_r with
      (z := py_sum ((fun c => nth i c 0%Q) <$> bump_curves power_list)).
    unfold Qminus. rewrite <- Qplus_assoc, (Qplus_comm (- _)), Qplus_opp_r, Qplus_0_r.
    reflexivity. }
  split; [exact Hgen|]. split.
  - intros b Hb i Hi. rewrite (Hgen i Hi), Hb, !nth_elementwise_sum by done.
    cbn [fmap list_fmap]. rewrite py_sum_cons. unfold py_sum. cbn [fold_left].
    rewrite Qplus_0_r. reflexivity.
  - intros Hb. by rewrite (nobump_curves_all _ Hb).
Qed.

Lemma nobump_power_is_full_minus_bumps_witness :
  on_grid [1; 2; 3]%Q scenario /\ named scenario /\
  exists st,
    psd_components [1; 2; 3]%Q scenario = Ok st /\
    (forall i, i < 3 ->
       (nth i (nobump_power st) 0 ==
        nth i (full_power st) 0 - nth i (elementwise_sum 3 (bump_curves scenario)) 0)%Q) /\
    (forall b, bump_curves scenario = [b] ->
       forall i, i < 3 ->
         (nth i (nobump_power st) 0 == nth i (full_power st) 0 - nth i b 0)%Q) /\
    (bump_curves scenario = [] -> nobump_power st = full_power st).
Proof.
  assert (Hg : on_grid [1; 2; 3]%Q scenario) by (repeat constructor).
  assert (Hn : named scenario)
    by (repeat constructor; apply elem_of_component_names; cbn; tauto).
  split; [exact Hg|]. split; [exact Hn|].
  exact (nobump_power_is_full_minus_bumps [1; 2; 3]%Q scenario Hg Hn).
Defined.

(** C2, as stated, fails when two components are called
    "OscillationBump": both curves are left out of [nobump_power], so
    neither curve alone is the difference. *)
Lemma two_bumps_not_full_minus_bump : ~ nobump_is_full_minus_bump [1]%Q two_bumps.
Proof.
  intros H.
  assert (Hrun : exists st, psd_components [1]%Q two_bumps = Ok st /\
                   nobump_power st = [0]%Q /\ full_power st = [2]%Q).
  { eexists. split; [vm_compute; reflexivity|]. split; reflexivity. }
  destruct Hrun as (st & Hrun & Hnb & Hf).
  destruct (H st Hrun) as [Hb _].
  assert (Hin : ("OscillationBump", [1]%Q) ∈ two_bumps) by (apply elem_of_cons; tauto).
  specialize (Hb [1]%Q Hin 0 (Nat.lt_0_succ 0)).
  rewrite Hnb, Hf in Hb. vm_compute in Hb. discriminate Hb.
Qed.

(** ** The legend *)

(** C4. Each distinct component name has exactly one entry among the
    legend labels, however many curves carry it: the curve at position [i]
    is drawn with its label when no earlier curve has its name, and
    without a label otherwise. *)
Theorem legend_label_once_per_name freq power_list :
  on_grid freq power_list -> named power_list ->
  exists st,
    psd_components freq power_list = Ok st /\
    NoDup (unique_labels st) /\
    length (unique_labels st) = length (first_occurrences power_list.*1) /\
    (forall name, name ∈ power_list.*1 ->
       length (filter (fun l => l = label_of name) (unique_labels st)) = 1) /\
    (forall i name power, power_list !! i = Some (name, power) ->
       exists ls alpha,
         ax st !! i = Some (LogLog freq power [] (Some ls) "b" (Some alpha)
                              (if decide (name ∈ take i power_list.*1) then None
                               else Some (label_of name)))).
Proof.
  intros Hg Hn.
  destruct (psd_components_inv freq power_list Hg Hn) as (st0 & Hinv & Hrun).
  destruct Hinv as (_ & _ & Hul & Hlen & Hax).
  assert (Hnd : NoDup (unique_labels st0)).
  { rewrite Hul. apply NoDup_fmap_2_strong; [|apply NoDup_first_occurrences].
    intros a b Ha Hb. rewrite elem_of_first_occurrences in Ha, Hb.
    apply label_of_inj; by eapply named_names. }
  exists (psd_draw_totals freq st0). split; [done|].
  cbn [psd_draw_totals unique_labels ax].
  split; [done|]. split; [by rewrite Hul, length_fmap|]. split.
  - intros name Hin. apply filter_eq_once; [done|].
    rewrite Hul. apply list_elem_of_fmap. exists name.
    by rewrite elem_of_first_occurrences.
  - intros i name power Hi.
    destruct (Hax i _ Hi) as (ls & alpha & _ & _ & Hd). cbn [fst snd] in Hd.
    exists ls, alpha. rewrite lookup_app_l; [done|].
    rewrite Hlen. by eapply lookup_lt_Some.
Qed.

Lemma legend_label_once_per_name_witness :
  on_grid [1; 2; 3]%Q scenario /\ named scenario /\
  exists st,
    psd_components [1; 2; 3]%Q scenario = Ok st /\
    NoDup (unique_labels st) /\
    length (unique_labels st) = length (first_occurrences scenario.*1) /\
    (forall name, name ∈ scenario.*1 ->
       length (filter (fun l => l = label_of name) (unique_labels st)) = 1) /\
    (forall i name power, scenario !! i = Some (name, power) ->
       exists ls alpha,
         ax st !! i = Some (LogLog [1; 2; 3]%Q power [] (Some ls) "b" (Some alpha)
                              (if decide (name ∈ take i scenario.*1) then None
                               else Some (label_of name)))).
Proof.
  assert (Hg : on_grid [1; 2; 3]%Q scenario) by (repeat constructor).
  assert (Hn : named scenario)
    by (repeat constructor; apply elem_of_component_names; cbn; tauto).
  split; [exact Hg|]. split; [exact Hn|].
  exact (legend_label_once_per_name [1; 2; 3]%Q scenario Hg Hn).
Defined.

(** C10. [unique_labels] is a sequence: it holds the legend label of each
    distinct name, in the order in which the names first occur in the
    input. *)
Theorem unique_labels_in_first_occurrence_order freq power_list :
  on_grid freq power_list -> named power_list ->
  exists st,
    psd_components freq power_list = Ok st /\
    unique_labels st = label_of <$> first_occurrences power_list.*1 /\
    forall name, name ∈ power_list.*1 -> label_dict !! name = Some (label_of name).
Proof.
  intros Hg Hn.
  destruct (psd_components_inv freq power_list Hg Hn) as (st0 & Hinv & Hrun).
  destruct Hinv as (_ & _ & Hul & _).
  exists (psd_draw_totals freq st0). split; [done|]. split; [done|].
  intros name Hin.
  destruct (dict_getitem_known name (named_names _ _ Hn Hin)) as (_ & _ & _ & _ & Hl).
  unfold dict_getitem in Hl. destruct (label_dict !! name) eqn:E; [|done].
  by injection Hl as ->.
Qed.

Lemma unique_labels_in_first_occurrence_order_witness :
  on_grid [1; 2; 3]%Q scenario /\ named scenario /\
  exists st,
    psd_components [1; 2; 3]%Q scenario = Ok st /\
    unique_labels st = label_of <$> first_occurrences scenario.*1 /\
    forall name, name ∈ scenario.*1 -> label_dict !! name = Some (label_of name).
Proof.
  assert (Hg : on_grid [1; 2; 3]%Q scenario) by (repeat constructor).
  assert (Hn : named scenario)
    by (repeat constructor; apply elem_of_component_names; cbn; tauto).
  split; [exact Hg|]. split; [exact Hn|].
  exact (unique_labels_in_first_occurrence_order [1; 2; 3]%Q scenario Hg Hn).
Defined.

(** C8. On the three components Granulation [4,2,1], OscillationBump
    [0,3,0] and WhiteNoise [1,1,1], over any grid of three frequencies,
    [full_power] is [5,6,2], [nobump_power] is [5,3,2] and the legend
    labels are Granulation, Gaussian envelope and White noise. *)
Theorem scenario_aggregates freq :
  length freq = 3 ->
  exists st,
    psd_components freq scenario = Ok st /\
    full_power st = [5; 6; 2]%Q /\
    nobump_power st = [5; 3; 2]%Q /\
    unique_labels st = ["Granulation"; "Gaussian envelope"; "White noise"].
Proof.
  intros Hlen.
  destruct freq as [|f0 [|f1 [|f2 [|f3 freq]]]]; try discriminate Hlen.
  eexists. split; [vm_compute; reflexivity|]. repeat split; reflexivity.
Qed.

Lemma scenario_aggregates_witness :
  length [1; 2; 3]%Q = 3 /\
  exists st,
    psd_components [1; 2; 3]%Q scenario = Ok st /\
    full_power st = [5; 6; 2]%Q /\
    nobump_power st = [5; 3; 2]%Q /\
    unique_labels st = ["Granulation"; "Gaussian envelope"; "White noise"].
Proof.
  split; [reflexivity|]. exact (scenario_aggregates [1; 2; 3]%Q eq_refl).
Defined.

(** ** The white-noise adjustment *)

Lemma psd_step_unadjusted_eq freq st c :
  psd_step freq st c = psd_step_unadjusted freq st c.
Proof.
  unfold psd_step, psd_step_unadjusted. cbv zeta.
  destruct (decide (c.1 = "WhiteNoise")); by rewrite ?iadd_scalar_0.
Qed.

Lemma psd_loop_unadjusted_eq freq st power_list :
  psd_loop freq st power_list = psd_loop_unadjusted freq st power_list.
Proof.
  revert st. induction power_list as [|c pl IH]; intros st; [done|].
  cbn [psd_loop psd_loop_unadjusted]. rewrite psd_step_unadjusted_eq.
  destruct (psd_step_unadjusted freq st c) as [st'|e]; [apply IH | done].
Qed.

(** C6. Adding zero to the "WhiteNoise" curve changes nothing: on every
    component list the loop ends in the same state, or raises the same
    exception, as the loop without lines 85-86; in particular
    [full_power] and [nobump_power] are the same. *)
Theorem white_noise_adjustment_inert freq power_list :
  psd_loop freq (psd_init freq) power_list =
  psd_loop_unadjusted freq (psd_init freq) power_list.
Proof. apply psd_loop_unadjusted_eq. Qed.

(** ** Unknown component names *)

Lemma psd_loop_app freq st l1 l2 :
  psd_loop freq st (l1 ++ l2) = (st' ← psd_loop freq st l1; psd_loop freq st' l2).
Proof.
  revert st. induction l1 as [|a l1 IH]; intros st; [done|].
  cbn [app psd_loop]. destruct (psd_step freq st a) as [st1|e]; [apply IH | done].
Qed.

Lemma psd_step_unknown freq st name power :
  name ∉ component_names ->
  length power = length (full_power st) ->
  length (nobump_power st) = length (full_power st) ->
  psd_step freq st (name, power) = Raise (KeyError name).
Proof.
  intros Hn Hp Hnb. pose proof (label_dict_unknown name Hn) as Hl.
  rewrite elem_of_component_names in Hn.
  unfold psd_step. cbn [fst snd]. cbv zeta.
  rewrite (decide_False (P := name = "WhiteNoise")) by tauto.
  rewrite (decide_True (P := name ≠ "OscillationBump")) by tauto.
  rewrite !iadd_same_length by congruence. rewrite Hl. done.
Qed.

Lemma first_unnamed power_list :
  ~ named power_list ->
  exists pre name power post,
    power_list = pre ++ (name, power) :: post /\
    named pre /\ name ∉ component_names.
Proof.
  unfold named. induction power_list as [|[name power] pl IH]; intros Hn.
  - destruct Hn. constructor.
  - destruct (decide (name ∈ component_names)) as [Hin|Hout].
    + destruct IH as (pre & name' & power' & post & -> & Hpre & Hout).
      { intros Hpl. apply Hn. by constructor. }
      exists ((name, power) :: pre), name', power', post.
      split; [done|]. split; [by constructor | done].
    + exists [], name, power, pl. split; [done|]. split; [constructor | done].
Qed.

(** C9. When some component carries a name that is not a key of the
    dictionaries, [plot_psd] raises [KeyError] for the first such name,
    at the lookup of its label, whatever the two flags: the component is
    neither skipped nor drawn. *)
Theorem unknown_component_raises_KeyError LombScargle_autopower convolve_Box1DKernel
  model include_data parseval_norm :
  let fp := get_psd model (time model) in
  on_grid fp.1 fp.2 -> (~ named fp.2) ->
  exists pre name power post,
    fp.2 = pre ++ (name, power) :: post /\
    named pre /\ (name ∉ component_names) /\
    dict_getitem label_dict name = Raise (KeyError name) /\
    plot_psd LombScargle_autopower convolve_Box1DKernel model include_data parseval_norm =
      Raise (KeyError name).
Proof.
  intros fp Hg Hn.
  destruct (first_unnamed fp.2 Hn) as (pre & name & power & post & Heq & Hpre & Hout).
  exists pre, name, power, post. split; [done|]. split; [done|]. split; [done|].
  split; [by apply label_dict_unknown|].
  unfold plot_psd, psd_components. fold fp. rewrite Heq.
  unfold on_grid in Hg. rewrite Heq in Hg.
  apply Forall_app in Hg as [Hgpre Hg]. apply Forall_cons in Hg as [Hgc _].
  cbn [snd] in Hgc.
  destruct (psd_loop_inv fp.1 pre Hgpre Hpre) as (st & Hrun & Hfull & Hnb & _).
  rewrite psd_loop_app, Hrun. cbn [mbind result_bind psd_loop].
  rewrite psd_step_unknown; [done|done| |].
  - by rewrite Hfull, length_elementwise_sum.
  - by rewrite Hfull, Hnb, !length_elementwise_sum.
Qed.

Lemma unknown_component_raises_KeyError_witness :
  let fp := get_psd activity_model (time activity_model) in
  on_grid fp.1 fp.2 /\ (~ named fp.2) /\
  exists pre name power post,
    fp.2 = pre ++ (name, power) :: post /\
    named pre /\ (name ∉ component_names) /\
    dict_getitem label_dict name = Raise (KeyError name) /\
    plot_psd sample_periodogram sample_convolve activity_model true false =
      Raise (KeyError name).
Proof.
  intros fp.
  assert (Hg : on_grid fp.1 fp.2) by (repeat constructor).
  assert (Hn : ~ named fp.2).
  { intros H. apply Forall_cons in H as [_ H]. apply Forall_cons in H as [H _].
    apply elem_of_component_names in H. cbn in H. destruct H as [H|[H|H]]; discriminate H. }
  split; [exact Hg|]. split; [exact Hn|].
  exact (unknown_component_raises_KeyError sample_periodogram sample_convolve
           activity_model true false Hg Hn).
Defined.

(** ** The empirical spectrum *)

Lemma Qscale_add (x y v s r : Q) :
  (x * v / s / r + y * v / s / r == (x + y) * v / s / r)%Q.
Proof. unfold Qdiv. ring. Qed.

Lemma Qscale_cancel (v s r : Q) :
  ~ (s == 0)%Q -> ~ (r == 0)%Q -> (s * v / s / r * r == v)%Q.
Proof. intros Hs Hr. field. split; assumption. Qed.

Lemma py_sum_scaled (power : list Q) (v s r : Q) :
  (py_sum ((fun p => p * v / s / r) <$> power) == py_sum power * v / s / r)%Q.
Proof.
  induction power as [|x power IH].
  - reflexivity.
  - cbn [fmap list_fmap]. rewrite !py_sum_cons.
    change (list_fmap Q Q (fun p => p * v / s / r)%Q power)
      with ((fun p => p * v / s / r)%Q <$> power).
    rewrite IH. apply Qscale_add.
Qed.

Lemma frequency_grid_resolution freq f0 f1 :
  frequency_grid freq -> freq !! 0 = Some f0 -> freq !! 1 = Some f1 ->
  (0 < f1 - f0)%Q.
Proof.
  intros [_ Hinc] H0 H1. pose proof (Hinc 0 1 f0 f1 (Nat.lt_0_succ 0) H0 H1) as Hlt.
  by apply Qlt_minus_iff in Hlt.
Qed.

(** C3. With [include_data] and [parseval_norm] set, a periodogram on a
    frequency grid of at least two points and with sum(power) > 0 is
    rescaled to [power * variance / sum(power) / resolution], where
    [resolution] is the gap between the first two grid points, and the
    rescaled curve satisfies [sum(scaled) * resolution = variance] of the
    observed flux; it is that curve which is drawn. *)
Theorem parseval_normalization_sums_to_variance LombScargle_autopower convolve_Box1DKernel
  model st0 :
  let fp := get_psd model (time model) in
  let ls := LombScargle_autopower ((fun t => t / 1000000)%Q <$> time model) (flux model) in
  psd_components fp.1 fp.2 = Ok st0 ->
  frequency_grid ls.1 -> 2 <= length ls.1 -> (0 < py_sum ls.2)%Q ->
  exists f0 f1 scaled,
    ls.1 !! 0 = Some f0 /\ ls.1 !! 1 = Some f1 /\
    psd_normalize model true ls.1 ls.2 = Ok scaled /\
    scaled = (fun p => p * np_var (flux model) / py_sum ls.2 / (f1 - f0))%Q <$> ls.2 /\
    (py_sum scaled * (f1 - f0) == np_var (flux model))%Q /\
    plot_psd LombScargle_autopower convolve_Box1DKernel model true true = Ok
      {| nobump_power := nobump_power st0; full_power := full_power st0;
         unique_labels := unique_labels st0;
         ax := ax st0 ++
           [LogLog ls.1 scaled [5%Z] None "k" (Some (3 # 10)) None;
            LogLog ls.1 (convolve_Box1DKernel 10 scaled) [] None "k" (Some (5 # 10)) None] |}.
Proof.
  intros fp ls Hrun Hgrid Hlen Hsum.
  destruct (lookup_lt_is_Some_2 ls.1 0) as [f0 H0]; [lia|].
  destruct (lookup_lt_is_Some_2 ls.1 1) as [f1 H1]; [lia|].
  pose proof (frequency_grid_resolution _ _ _ Hgrid H0 H1) as Hres.
  exists f0, f1. eexists. split; [done|]. split; [done|].
  assert (Hnorm : psd_normalize model true ls.1 ls.2 = Ok
    ((fun p => p * np_var (flux model) / py_sum ls.2 / (f1 - f0))%Q <$> ls.2)).
  { unfold psd_normalize, getitem. by rewrite H1, H0. }
  split; [exact Hnorm|]. split; [done|]. split.
  - rewrite py_sum_scaled. apply Qscale_cancel.
    + intros Hz. rewrite Hz in Hsum. by apply Qlt_irrefl in Hsum.
    + intros Hz. rewrite Hz in Hres. by apply Qlt_irrefl in Hres.
  - unfold plot_psd. fold fp. rewrite Hrun. cbn [mbind result_bind].
    unfold psd_data. fold ls. by rewrite Hnorm.
Qed.

Lemma parseval_normalization_sums_to_variance_witness :
  let model := scenario_model in
  let st0 := psd_draw_totals [1; 2; 3]%Q
               {| nobump_power := [5; 3; 2]%Q; full_power := [5; 6; 2]%Q;
                  unique_labels := ["Granulation"; "Gaussian envelope"; "White noise"];
                  ax := [LogLog [1; 2; 3]%Q [4; 2; 1]%Q [] (Some "--") "b" (Some (8 # 10))
                           (Some "Granulation");
                         LogLog [1; 2; 3]%Q [0; 3; 0]%Q [] (Some "-.") "b" (Some (8 # 10))
                           (Some "Gaussian envelope");
                         LogLog [1; 2; 3]%Q [1; 1; 1]%Q [] (Some ":") "b" (Some (6 # 10))
                           (Some "White noise")] |} in
  let fp := get_psd model (time model) in
  let ls := sample_periodogram ((fun t => t / 1000000)%Q <$> time model) (flux model) in
  psd_components fp.1 fp.2 = Ok st0 /\
  frequency_grid ls.1 /\ 2 <= length ls.1 /\ (0 < py_sum ls.2)%Q /\
  exists f0 f1 scaled,
    ls.1 !! 0 = Some f0 /\ ls.1 !! 1 = Some f1 /\
    psd_normalize model true ls.1 ls.2 = Ok scaled /\
    scaled = (fun p => p * np_var (flux model) / py_sum ls.2 / (f1 - f0))%Q <$> ls.2 /\
    (py_sum scaled * (f1 - f0) == np_var (flux model))%Q /\
    plot_psd sample_periodogram sample_convolve model true true = Ok
      {| nobump_power := nobump_power st0; full_power := full_power st0;
         unique_labels := unique_labels st0;
         ax := ax st0 ++
           [LogLog ls.1 scaled [5%Z] None "k" (Some (3 # 10)) None;
            LogLog ls.1 (sample_convolve 10 scaled) [] None "k" (Some (5 # 10)) None] |}.
Proof.
  intros model st0 fp ls.
  assert (Hrun : psd_components fp.1 fp.2 = Ok st0) by (vm_compute; reflexivity).
  assert (Hgrid : frequency_grid ls.1).
  { split.
    - repeat constructor.
    - intros i j x y Hij Hi Hj.
      destruct i as [|[|[|[|i]]]]; destruct j as [|[|[|[|j]]]];
        try lia; try discriminate Hj; try discriminate Hi;
        injection Hi as <-; injection Hj as <-; reflexivity. }
  assert (Hlen : 2 <= length ls.1) by (cbn; lia).
  assert (Hsum : (0 < py_sum ls.2)%Q) by reflexivity.
  split; [exact Hrun|]. split; [exact Hgrid|]. split; [exact Hlen|]. split; [exact Hsum|].
  exact (parseval_normalization_sums_to_variance sample_periodogram sample_convolve
           model st0 Hrun Hgrid Hlen Hsum).
Defined.

(** C5. With [include_data] set and [parseval_norm] unset, every value of
    the periodogram is divided by the number of time samples,
    [scaled[i] = power[i] / n_samples], and nothing else is done to the
    curve: it is drawn as it is, and it is what the smoothing receives. *)
Theorem per_sample_normalization LombScargle_autopower convolve_Box1DKernel model st0 :
  let fp := get_psd model (time model) in
  let ls := LombScargle_autopower ((fun t => t / 1000000)%Q <$> time model) (flux model) in
  let n_samples := inject_Z (Z.of_nat (length (time model))) in
  psd_components fp.1 fp.2 = Ok st0 ->
  exists scaled,
    psd_normalize model false ls.1 ls.2 = Ok scaled /\
    length scaled = length ls.2 /\
    (forall i, scaled !! i = (fun p => p / n_samples)%Q <$> ls.2 !! i) /\
    plot_psd LombScargle_autopower convolve_Box1DKernel model true false = Ok
      {| nobump_power := nobump_power st0; full_power := full_power st0;
         unique_labels := unique_labels st0;
         ax := ax st0 ++
           [LogLog ls.1 scaled [5%Z] None "k" (Some (3 # 10)) None;
            LogLog ls.1 (convolve_Box1DKernel 10 scaled) [] None "k" (Some (5 # 10)) None] |}.
Proof.
  intros fp ls n_samples Hrun.
  exists ((fun p => p / n_samples)%Q <$> ls.2).
  split; [done|]. split; [apply length_fmap|]. split.
  - intros i. apply list_lookup_fmap.
  - unfold plot_psd. fold fp. rewrite Hrun. cbn [mbind result_bind].
    unfold psd_data. fold ls. done.
Qed.

Lemma per_sample_normalization_witness :
  let model := scenario_model in
  let st0 := psd_draw_totals [1; 2; 3]%Q
               {| nobump_power := [5; 3; 2]%Q; full_power := [5; 6; 2]%Q;
                  unique_labels := ["Granulation"; "Gaussian envelope"; "White noise"];
                  ax := [LogLog [1; 2; 3]%Q [4; 2; 1]%Q [] (Some "--") "b" (Some (8 # 10))
                           (Some "Granulation");
                         LogLog [1; 2; 3]%Q [0; 3; 0]%Q [] (Some "-.") "b" (Some (8 # 10))
                           (Some "Gaussian envelope");
                         LogLog [1; 2; 3]%Q [1; 1; 1]%Q [] (Some ":") "b" (Some (6 # 10))
                           (Some "White noise")] |} in
  let fp := get_psd model (time model) in
  let ls := sample_periodogram ((fun t => t / 1000000)%Q <$> time model) (flux model) in
  psd_components fp.1 fp.2 = Ok st0 /\
  exists scaled,
    psd_normalize model false ls.1 ls.2 = Ok scaled /\
    length scaled = length ls.2 /\
    (forall i, scaled !! i = (fun p => p / 4)%Q <$> ls.2 !! i) /\
    plot_psd sample_periodogram sample_convolve model true false = Ok
      {| nobump_power := nobump_power st0; full_power := full_power st0;
         unique_labels := unique_labels st0;
         ax := ax st0 ++
           [LogLog ls.1 scaled [5%Z] None "k" (Some (3 # 10)) None;
            LogLog ls.1 (sample_convolve 10 scaled) [] None "k" (Some (5 # 10)) None] |}.
Proof.
  intros model st0 fp ls.
  assert (Hrun : psd_components fp.1 fp.2 = Ok st0) by (vm_compute; reflexivity).
  split; [exact Hrun|].
  exact (per_sample_normalization sample_periodogram sample_convolve model st0 Hrun).
Defined.

(** ** plot_gp *)

Lemma np_binop_same_length op (a b : list Q) :
  length a = length b -> np_binop op a b = Ok (zip_with op a b).
Proof. intros H. unfold np_binop. by rewrite decide_True. Qed.

(** C7. A model without an [error] attribute is plotted without error
    bars: the [AttributeError] is caught and [err] is [None], in the full
    plot and in the zoomed one; an [error] attribute that is present is
    what the error bars are drawn from.  No other exception is caught: an
    empty [time] array still ends [plot_gp] with an [IndexError]. *)
Theorem missing_error_attribute_falls_back gp_predict model :
  (error model = None -> plot_gp_err model = Ok PyNone) /\
  (forall v, error model = Some v -> plot_gp_err model = Ok v) /\
  (forall t0 tl mu std_jitter,
     getitem (time model) 0 = Ok t0 ->
     getitem_last (time model) = Ok tl ->
     gp_predict model (np_linspace t0 tl (2 * length (time model))) = Ok (mu, std_jitter) ->
     length mu = length std_jitter ->
     exists figs,
       plot_gp gp_predict model = Ok figs /\
       head (gp_plot figs) =
         Some (Errorbar (per_day (time model)) (flux model) (default PyNone (error model))) /\
       head (zoom_plot figs) =
         Some (Errorbar (per_day (take 150 (time model))) (take 150 (flux model))
                 (err_zoom (default PyNone (error model))))) /\
  (time model = [] -> plot_gp gp_predict model = Raise IndexError).
Proof.
  assert (Herr : plot_gp_err model = Ok (default PyNone (error model))).
  { unfold plot_gp_err, getattr_error. by destruct (error model). }
  split; [intros H; by rewrite Herr, H|]. split; [intros v H; by rewrite Herr, H|]. split.
  - intros t0 tl mu sj H0 Hl Hp Hlen.
    unfold plot_gp. rewrite Herr, H0, Hl. cbn [mbind result_bind]. rewrite Hp.
    cbn [mbind result_bind fst snd].
    rewrite !np_binop_same_length by (rewrite ?length_take; lia).
    eexists. split; [reflexivity|]. split; reflexivity.
  - intros Ht. unfold plot_gp. rewrite Herr, Ht. done.
Qed.

Lemma missing_error_attribute_falls_back_witness :
  let model := scenario_model in
  let x := np_linspace 0 3 8 in
  error model = None /\
  getitem (time model) 0 = Ok 0%Q /\
  getitem_last (time model) = Ok 3%Q /\
  sample_predict model x = Ok (x, (fun _ => 1%Q) <$> x) /\
  length x = length ((fun _ => 1%Q) <$> x) /\
  plot_gp_err model = Ok PyNone /\
  exists figs,
    plot_gp sample_predict model = Ok figs /\
    head (gp_plot figs) = Some (Errorbar (per_day (time model)) (flux model) PyNone) /\
    head (zoom_plot figs) =
      Some (Errorbar (per_day (take 150 (time model))) (take 150 (flux model)) PyNone).
Proof.
  intros model x.
  assert (He : error model = None) by reflexivity.
  assert (H0 : getitem (time model) 0 = Ok 0%Q) by reflexivity.
  assert (Hl : getitem_last (time model) = Ok 3%Q) by reflexivity.
  assert (Hp : sample_predict model (np_linspace 0 3 (2 * length (time model))) =
               Ok (x, (fun _ => 1%Q) <$> x)) by reflexivity.
  assert (Hlen : length x = length ((fun _ => 1%Q) <$> x)) by reflexivity.
  split; [exact He|]. split; [exact H0|]. split; [exact Hl|]. split; [exact Hp|].
  split; [exact Hlen|].
  pose proof (missing_error_attribute_falls_back sample_predict model) as (Hnone & _ & Hfig & _).
  split; [exact (Hnone He)|].
  exact (Hfig 0%Q 3%Q x ((fun _ => 1%Q) <$> x) H0 Hl Hp Hlen).
Defined.

(** ** The data overlay and the model curves *)

(** A successful [plot_psd] is a successful [psd_components] followed, when
    [include_data] is set, by a successful [psd_normalize]. *)
Ltac plot_psd_inv H st0 scaled :=
  unfold plot_psd in H;
  let E := fresh "Hcomp" in
  destruct (psd_components _ _) as [st0|] eqn:E; [|discriminate H];
  cbn [mbind result_bind] in H;
  match type of H with
  | (if ?b then _ else _) = _ =>
      destruct b;
      [ unfold psd_data in H;
        let En := fresh "Hnorm" in
        destruct (psd_normalize _ _ _ _) as [scaled|] eqn:En; [|discriminate H];
        cbn [mbind result_bind] in H; injection H as <-
      | injection H as <- ]
  end.



(** ** The labels of the drawing calls *)

Lemma psd_step_labels freq st c st' :
  psd_step freq st c = Ok st' ->
  omap artist_label (ax st) = unique_labels st ->
  omap artist_label (ax st') = unique_labels st'.
Proof.
  unfold psd_step. cbv zeta. intros H Hinv.
  destruct (if decide (c.1 ≠ "OscillationBump") then _ else _) as [nb|]; [|discriminate H].
  cbn [mbind result_bind] in H.
  destruct (iadd (full_power st) _) as [fu|]; [|discriminate H].
  cbn [mbind result_bind] in H.
  destruct (dict_getitem label_dict c.1) as [lbl|]; [|discriminate H].
  cbn [mbind result_bind] in H.
  destruct (decide (lbl ∉ unique_labels st));
    destruct (dict_getitem ls_dict c.1) as [ls|]; try discriminate H;
    cbn [mbind result_bind] in H;
    destruct (dict_getitem alpha_dict c.1) as [alpha|]; try discriminate H;
    cbn [mbind result_bind] in H; injection H as <-;
    cbn [ax unique_labels]; rewrite omap_app, Hinv; cbn.
  - reflexivity.
  - by rewrite app_nil_r.
Qed.

Lemma psd_loop_labels freq st power_list st' :
  psd_loop freq st power_list = Ok st' ->
  omap artist_label (ax st) = unique_labels st ->
  omap artist_label (ax st') = unique_labels st'.
Proof.
  revert st. induction power_list as [|c pl IH]; intros st H Hinv.
  - by injection H as <-.
  - cbn [psd_loop] in H. destruct (psd_step freq st c) as [st1|] eqn:E; [|discriminate H].
    cbn [mbind result_bind] in H. eapply IH; [exact H|]. by eapply psd_step_labels.
Qed.

(** Whenever [plot_psd] returns, the labels attached to its drawing calls
    are, in call order, exactly [unique_labels] followed by the labels of
    the two aggregate curves: every label recorded in [unique_labels] is on
    one drawn curve, and the curves of the empirical spectrum carry none. *)
Theorem drawn_labels_are_unique_labels LombScargle_autopower convolve_Box1DKernel
  model include_data parseval_norm st :
  plot_psd LombScargle_autopower convolve_Box1DKernel model include_data parseval_norm = Ok st ->
  omap artist_label (ax st) =
  unique_labels st ++ ["Model without gaussian"; "Full Model"].
Proof.
  intros H.
  assert (Hcomp' : forall st0,
    psd_components (get_psd model (time model)).1 (get_psd model (time model)).2 = Ok st0 ->
    omap artist_label (ax st0) = unique_labels st0 ++ ["Model without gaussian"; "Full Model"]).
  { intros st0 Hc. unfold psd_components in Hc.
    destruct (psd_loop _ _ _) as [st1|] eqn:El; [|discriminate Hc].
    cbn [mbind result_bind] in Hc. injection Hc as <-.
    cbn [psd_draw_totals ax unique_labels]. rewrite omap_app.
    by rewrite (psd_loop_labels _ _ _ _ El eq_refl). }
  plot_psd_inv H st0 scaled.
  - cbn [ax unique_labels]. rewrite omap_app, (Hcomp' st0 eq_refl). cbn.
    by rewrite app_nil_r.
  - by apply Hcomp'.
Qed.

Lemma drawn_labels_are_unique_labels_witness :
  exists st,
    plot_psd sample_periodogram sample_convolve scenario_model true true = Ok st /\
    omap artist_label (ax st) =
    unique_labels st ++ ["Model without gaussian"; "Full Model"].
Proof.
  eexists. split; [vm_compute; reflexivity|].
  exact (drawn_labels_are_unique_labels sample_periodogram sample_convolve
           scenario_model true true _ eq_refl).
Defined.

(** ** Failures of plot_psd *)

(** A periodogram with fewer than two frequencies makes the Parseval
    normalisation fail with [IndexError] at [freq2[1]], once the model
    curves have been drawn; the per-sample normalisation never reads the
    grid and still succeeds on the same input. *)
Theorem parseval_on_short_grid_raises_IndexError LombScargle_autopower convolve_Box1DKernel
  model st0 :
  let fp := get_psd model (time model) in
  let ls := LombScargle_autopower ((fun t => t / 1000000)%Q <$> time model) (flux model) in
  psd_components fp.1 fp.2 = Ok st0 ->
  length ls.1 < 2 ->
  plot_psd LombScargle_autopower convolve_Box1DKernel model true true = Raise IndexError /\
  exists st, plot_psd LombScargle_autopower convolve_Box1DKernel model true false = Ok st.
Proof.
  intros fp ls Hrun Hlen. unfold plot_psd. fold fp. rewrite Hrun.
  cbn [mbind result_bind]. unfold psd_data. fold ls. split.
  - unfold psd_normalize, getitem.
    rewrite (lookup_ge_None_2 ls.1 1) by lia. done.
  - eexists. unfold psd_normalize. cbn [mbind result_bind]. reflexivity.
Qed.

Lemma parseval_on_short_grid_raises_IndexError_witness :
  exists st0,
    psd_components [1; 2; 3]%Q scenario = Ok st0 /\
    length [1]%Q < 2 /\
    plot_psd short_periodogram sample_convolve scenario_model true true = Raise IndexError /\
    exists st, plot_psd short_periodogram sample_convolve scenario_model true false = Ok st.
Proof.
  eexists. split; [vm_compute; reflexivity|].
  split; [apply Nat.lt_succ_diag_r|].
  exact (parseval_on_short_grid_raises_IndexError short_periodogram sample_convolve
           scenario_model _ eq_refl (Nat.lt_succ_diag_r 1)).
Defined.

Lemma iadd_mismatch (a b : list Q) :
  length b <> length a -> length b <> 1 -> iadd a b = Raise ValueError.
Proof.
  intros Hne H1. unfold iadd. rewrite decide_False by done.
  by destruct b as [|y [|z b]].
Qed.

Lemma psd_step_misaligned freq st name power :
  length (nobump_power st) = length (full_power st) ->
  length power <> length (full_power st) -> length power <> 1 ->
  psd_step freq st (name, power) = Raise ValueError.
Proof.
  intros Hnb Hne H1. unfold psd_step. cbn [fst snd]. cbv zeta.
  replace (if decide (name = "WhiteNoise") then iadd_scalar power 0 else power)
    with power by (case_decide; by rewrite ?iadd_scalar_0).
  rewrite (iadd_mismatch (full_power st)) by done.
  destruct (decide (name ≠ "OscillationBump")).
  - by rewrite iadd_mismatch by congruence.
  - done.
Qed.

(** A curve whose length is neither that of the grid nor one stops
    [plot_psd] with [ValueError] at the in-place addition, when the
    components before it are well formed.  The addition comes before the
    dictionary lookup, so this holds whatever the name of the component,
    a name unknown to the dictionaries included. *)
Theorem misaligned_curve_raises_ValueError LombScargle_autopower convolve_Box1DKernel
  model include_data parseval_norm pre name power post :
  let fp := get_psd model (time model) in
  fp.2 = pre ++ (name, power) :: post ->
  on_grid fp.1 pre -> named pre ->
  length power <> length fp.1 -> length power <> 1 ->
  plot_psd LombScargle_autopower convolve_Box1DKernel model include_data parseval_norm =
    Raise ValueError.
Proof.
  intros fp Heq Hg Hn Hne H1.
  destruct (psd_loop_inv fp.1 pre Hg Hn) as (st & Hrun & Hfull & Hnb & _).
  unfold plot_psd, psd_components. fold fp. rewrite Heq, psd_loop_app, Hrun.
  cbn [mbind result_bind psd_loop].
  rewrite psd_step_misaligned; [done| | |done].
  - by rewrite Hfull, Hnb, !length_elementwise_sum.
  - by rewrite Hfull, length_elementwise_sum.
Qed.

Lemma misaligned_curve_raises_ValueError_witness :
  let fp := get_psd misaligned_model (time misaligned_model) in
  fp.2 = [("Granulation", [4; 2; 1]%Q)] ++ ("Activity", [1; 1]%Q) :: [] /\
  on_grid fp.1 [("Granulation", [4; 2; 1]%Q)] /\
  named [("Granulation", [4; 2; 1]%Q)] /\
  length [1; 1]%Q <> length fp.1 /\ length [1; 1]%Q <> 1 /\
  plot_psd sample_periodogram sample_convolve misaligned_model true false = Raise ValueError.
Proof.
  intros fp.
  assert (Hg : on_grid fp.1 [("Granulation", [4; 2; 1]%Q)]) by (repeat constructor).
  assert (Hn : named [("Granulation", [4; 2; 1]%Q)])
    by (repeat constructor; apply elem_of_component_names; cbn; tauto).
  assert (Hne : length [1; 1]%Q <> length fp.1) by (cbn; lia).
  assert (H1 : length [1; 1]%Q <> 1) by (cbn; lia).
  split; [reflexivity|]. split; [exact Hg|]. split; [exact Hn|].
  split; [exact Hne|]. split; [exact H1|].
  exact (misaligned_curve_raises_ValueError sample_periodogram sample_convolve
           misaligned_model true false [("Granulation", [4; 2; 1]%Q)] "Activity" [1; 1]%Q []
           eq_refl Hg Hn Hne H1).
Defined.

(** For curves aligned with the grid, the model curves are drawn without
    an exception exactly when every component name is a key of the
    dictionaries. *)
Theorem psd_components_succeeds_iff_named freq power_list :
  on_grid freq power_list ->
  (exists st, psd_components freq power_list = Ok st) <-> named power_list.
Proof.
  intros Hg. split.
  - intros [st Hrun]. destruct (decide (named power_list)) as [|Hn]; [done|]. exfalso.
    destruct (first_unnamed power_list Hn) as (pre & name & power & post & -> & Hpre & Hout).
    unfold on_grid in Hg. apply Forall_app in Hg as [Hgpre Hg].
    apply Forall_cons in Hg as [Hgc _]. cbn [snd] in Hgc.
    destruct (psd_loop_inv freq pre Hgpre Hpre) as (st1 & Hrun1 & Hfull & Hnb & _).
    unfold psd_components in Hrun. rewrite psd_loop_app, Hrun1 in Hrun.
    cbn [mbind result_bind psd_loop] in Hrun.
    rewrite psd_step_unknown in Hrun; [discriminate Hrun|done| |].
    + by rewrite Hfull, length_elementwise_sum.
    + by rewrite Hfull, Hnb, !length_elementwise_sum.
  - intros Hn. destruct (psd_components_inv freq power_list Hg Hn) as (st0 & _ & Hrun).
    by eexists.
Qed.

Lemma psd_components_succeeds_iff_named_witness :
  on_grid [1; 2; 3]%Q scenario /\
  ((exists st, psd_components [1; 2; 3]%Q scenario = Ok st) <-> named scenario).
Proof.
  assert (Hg : on_grid [1; 2; 3]%Q scenario) by (repeat constructor).
  split; [exact Hg|]. exact (psd_components_succeeds_iff_named [1; 2; 3]%Q scenario Hg).
Defined.

(** ** Order and sign of the aggregates *)

Lemma py_sum_nonneg (l : list Q) : Forall (fun x => (0 <= x)%Q) l -> (0 <= py_sum l)%Q.
Proof.
  induction 1 as [|x l Hx _ IH]; [apply Qle_refl|].
  rewrite py_sum_cons. exact (Qplus_le_compat 0 x 0 (py_sum l) Hx IH).
Qed.

Lemma column_nonneg i (curves : list (list Q)) :
  Forall (Forall (fun x => (0 <= x)%Q)) curves ->
  Forall (fun x => (0 <= x)%Q) ((fun c => nth i c 0%Q) <$> curves).
Proof.
  intros H. apply Forall_fmap. eapply Forall_impl; [exact H|].
  intros c Hc. cbn. destruct (decide (i < length c)) as [Hi|Hi].
  - by apply Forall_nth.
  - rewrite nth_overflow by lia. apply Qle_refl.
Qed.

Lemma curves_nonneg_filter (P : string * list Q -> Prop) `{forall c, Decision (P c)}
  (power_list : list (string * list Q)) :
  Forall (fun c => Forall (fun x => (0 <= x)%Q) c.2) power_list ->
  Forall (Forall (fun x => (0 <= x)%Q)) (filter P power_list).*2.
Proof.
  intros Hall. apply Forall_fmap, Forall_forall. intros c Hc.
  apply list_elem_of_filter in Hc as [_ Hc].
  rewrite Forall_forall in Hall. by apply Hall.
Qed.

(** When no power value is negative, neither aggregate is, and the curve
    without the Gaussian envelope lies on or below the full model at every
    frequency. *)
Theorem nobump_power_below_full_power freq power_list :
  on_grid freq power_list -> named power_list ->
  Forall (fun c => Forall (fun x => (0 <= x)%Q) c.2) power_list ->
  exists st,
    psd_components freq power_list = Ok st /\
    forall i x y, nobump_power st !! i = Some x -> full_power st !! i = Some y ->
      (0 <= x)%Q /\ (x <= y)%Q.
Proof.
  intros Hg Hn Hpos.
  destruct (psd_components_inv freq power_list Hg Hn) as (st0 & Hinv & Hrun).
  destruct Hinv as (Hfull & Hnb & _).
  exists (psd_draw_totals freq st0). split; [done|].
  cbn [psd_draw_totals full_power nobump_power]. rewrite Hfull, Hnb.
  intros i x y Hx Hy.
  assert (Hi : i < length freq).
  { apply lookup_lt_Some in Hx. by rewrite length_elementwise_sum in Hx. }
  rewrite lookup_elementwise_sum in Hx, Hy by done.
  injection Hx as <-. injection Hy as <-.
  pose proof (py_sum_nonneg _ (column_nonneg i _
    (curves_nonneg_filter (fun c => c.1 ≠ "OscillationBump") _ Hpos))) as Hnbpos.
  pose proof (py_sum_nonneg _ (column_nonneg i _
    (curves_nonneg_filter (fun c => c.1 = "OscillationBump") _ Hpos))) as Hbpos.
  split; [exact Hnbpos|].
  rewrite (py_sum_bump_split i power_list).
  fold (nobump_curves power_list) in *. fold (bump_curves power_list) in *.
  rewrite <- (Qplus_0_r (py_sum ((fun c => nth i c 0%Q) <$> nobump_curves power_list))) at 1.
  apply Qplus_le_compat; [apply Qle_refl | exact Hbpos].
Qed.

Lemma nobump_power_below_full_power_witness :
  on_grid [1; 2; 3]%Q scenario /\ named scenario /\
  Forall (fun c => Forall (fun x => (0 <= x)%Q) c.2) scenario /\
  exists st,
    psd_components [1; 2; 3]%Q scenario = Ok st /\
    forall i x y, nobump_power st !! i = Some x -> full_power st !! i = Some y ->
      (0 <= x)%Q /\ (x <= y)%Q.
Proof.
  assert (Hg : on_grid [1; 2; 3]%Q scenario) by (repeat constructor).
  assert (Hn : named scenario)
    by (repeat constructor; apply elem_of_component_names; cbn; tauto).
  assert (Hpos : Forall (fun c => Forall (fun x => (0 <= x)%Q) c.2) scenario)
    by (repeat constructor; discriminate).
  split; [exact Hg|]. split; [exact Hn|]. split; [exact Hpos|].
  exact (nobump_power_below_full_power [1; 2; 3]%Q scenario Hg Hn Hpos).
Defined.

Lemma py_sum_Permutation (l k : list Q) : l ≡ₚ k -> (py_sum l == py_sum k)%Q.
Proof.
  induction 1 as [|x l k _ IH|x y l|l k m _ IH1 _ IH2].
  - reflexivity.
  - by rewrite !py_sum_cons, IH.
  - rewrite !py_sum_cons. apply Qplus_middle.
  - by rewrite IH1.
Qed.

(** Reordering the components changes neither aggregate at any
    frequency, and changes the recorded labels only in their order. *)
Theorem aggregates_invariant_under_reordering freq power_list power_list' :
  on_grid freq power_list -> named power_list ->
  power_list ≡ₚ power_list' ->
  exists st st',
    psd_components freq power_list = Ok st /\
    psd_components freq power_list' = Ok st' /\
    (forall i x y, full_power st !! i = Some x -> full_power st' !! i = Some y ->
       (x == y)%Q) /\
    (forall i x y, nobump_power st !! i = Some x -> nobump_power st' !! i = Some y ->
       (x == y)%Q) /\
    unique_labels st ≡ₚ unique_labels st'.
Proof.
  intros Hg Hn Hperm.
  assert (Hg' : on_grid freq power_list') by (unfold on_grid; by rewrite <- Hperm).
  assert (Hn' : named power_list') by (unfold named; by rewrite <- Hperm).
  destruct (psd_components_inv freq power_list Hg Hn) as (st0 & Hinv & Hrun).
  destruct (psd_components_inv freq power_list' Hg' Hn') as (st0' & Hinv' & Hrun').
  destruct Hinv as (Hfull & Hnb & Hul & _). destruct Hinv' as (Hfull' & Hnb' & Hul' & _).
  exists (psd_draw_totals freq st0), (psd_draw_totals freq st0').
  split; [done|]. split; [done|].
  cbn [psd_draw_totals full_power nobump_power unique_labels].
  rewrite Hfull, Hfull', Hnb, Hnb', Hul, Hul'.
  assert (Hcol : forall (cs cs' : list (list Q)) i x y,
    cs ≡ₚ cs' ->
    elementwise_sum (length freq) cs !! i = Some x ->
    elementwise_sum (length freq) cs' !! i = Some y -> (x == y)%Q).
  { intros cs cs' i x y Hp Hx Hy.
    assert (Hi : i < length freq).
    { apply lookup_lt_Some in Hx. by rewrite length_elementwise_sum in Hx. }
    rewrite lookup_elementwise_sum in Hx, Hy by done.
    injection Hx as <-. injection Hy as <-.
    apply py_sum_Permutation. by rewrite Hp. }
  split; [|split].
  - intros i x y. apply Hcol. by rewrite Hperm.
  - intros i x y. apply Hcol. unfold nobump_curves. by rewrite Hperm.
  - apply fmap_Permutation, NoDup_Permutation; try apply NoDup_first_occurrences.
    intros name. rewrite !elem_of_first_occurrences. by rewrite Hperm.
Qed.

Lemma aggregates_invariant_under_reordering_witness :
  on_grid [1; 2; 3]%Q scenario /\ named scenario /\ scenario ≡ₚ reverse scenario /\
  exists st st',
    psd_components [1; 2; 3]%Q scenario = Ok st /\
    psd_components [1; 2; 3]%Q (reverse scenario) = Ok st' /\
    (forall i x y, full_power st !! i = Some x -> full_power st' !! i = Some y ->
       (x == y)%Q) /\
    (forall i x y, nobump_power st !! i = Some x -> nobump_power st' !! i = Some y ->
       (x == y)%Q) /\
    unique_labels st ≡ₚ unique_labels st'.
Proof.
  assert (Hg : on_grid [1; 2; 3]%Q scenario) by (repeat constructor).
  assert (Hn : named scenario)
    by (repeat constructor; apply elem_of_component_names; cbn; tauto).
  assert (Hp : scenario ≡ₚ reverse scenario) by (symmetry; apply reverse_Permutation).
  split; [exact Hg|]. split; [exact Hn|]. split; [exact Hp|].
  exact (aggregates_invariant_under_reordering [1; 2; 3]%Q scenario (reverse scenario)
           Hg Hn Hp).
Defined.

(** ** How many labels *)

Lemma dict_label_values name lbl :
  dict_getitem label_dict name = Ok lbl ->
  lbl ∈ ["Granulation"; "Gaussian envelope"; "White noise"].
Proof.
  intros H. destruct (decide (name ∈ component_names)) as [Hin|Hout].
  - apply elem_of_component_names in Hin as [-> | [-> | ->]];
      vm_compute in H; injection H as <-; rewrite !elem_of_cons; tauto.
  - rewrite label_dict_unknown in H by done. discriminate H.
Qed.

Lemma psd_step_labels_distinct freq st c st' :
  psd_step freq st c = Ok st' ->
  NoDup (unique_labels st) /\
    (forall l, l ∈ unique_labels st -> l ∈ ["Granulation"; "Gaussian envelope"; "White noise"]) ->
  NoDup (unique_labels st') /\
    (forall l, l ∈ unique_labels st' -> l ∈ ["Granulation"; "Gaussian envelope"; "White noise"]).
Proof.
  unfold psd_step. cbv zeta. intros H [Hnd Hsub].
  destruct (if decide (c.1 ≠ "OscillationBump") then _ else _) as [nb|]; [|discriminate H].
  cbn [mbind result_bind] in H.
  destruct (iadd (full_power st) _) as [fu|]; [|discriminate H].
  cbn [mbind result_bind] in H.
  destruct (dict_getitem label_dict c.1) as [lbl|] eqn:El; [|discriminate H].
  cbn [mbind result_bind] in H.
  destruct (decide (lbl ∉ unique_labels st)) as [Hnew|Hold];
    destruct (dict_getitem ls_dict c.1) as [ls|]; try discriminate H;
    cbn [mbind result_bind] in H;
    destruct (dict_getitem alpha_dict c.1) as [alpha|]; try discriminate H;
    cbn [mbind result_bind] in H; injection H as <-; cbn [unique_labels].
  - split.
    + apply NoDup_app. split; [done|]. split; [|apply NoDup_singleton].
      intros l Hl Hl'. apply list_elem_of_singleton in Hl'. by subst.
    + intros l Hl. apply elem_of_app in Hl as [Hl|Hl]; [by apply Hsub|].
      apply list_elem_of_singleton in Hl. subst. by eapply dict_label_values.
  - done.
Qed.

Lemma psd_loop_labels_distinct freq st power_list st' :
  psd_loop freq st power_list = Ok st' ->
  NoDup (unique_labels st) /\
    (forall l, l ∈ unique_labels st -> l ∈ ["Granulation"; "Gaussian envelope"; "White noise"]) ->
  NoDup (unique_labels st') /\
    (forall l, l ∈ unique_labels st' -> l ∈ ["Granulation"; "Gaussian envelope"; "White noise"]).
Proof.
  revert st. induction power_list as [|c pl IH]; intros st H Hinv.
  - by injection H as <-.
  - cbn [psd_loop] in H. destruct (psd_step freq st c) as [st1|] eqn:E; [|discriminate H].
    cbn [mbind result_bind] in H. eapply IH; [exact H|]. by eapply psd_step_labels_distinct.
Qed.

(** Whenever [plot_psd] returns, the recorded labels are pairwise distinct
    values of [label_dict], so there are at most three of them however
    many components the model has. *)
Theorem at_most_three_component_labels LombScargle_autopower convolve_Box1DKernel
  model include_data parseval_norm st :
  plot_psd LombScargle_autopower convolve_Box1DKernel model include_data parseval_norm = Ok st ->
  NoDup (unique_labels st) /\
  (forall l, l ∈ unique_labels st -> exists name, label_dict !! name = Some l) /\
  length (unique_labels st) <= 3.
Proof.
  intros H.
  assert (Hloop : exists st1,
    psd_loop (get_psd model (time model)).1 (psd_init (get_psd model (time model)).1)
      (get_psd model (time model)).2 = Ok st1 /\ unique_labels st = unique_labels st1).
  { plot_psd_inv H st0 scaled; unfold psd_components in Hcomp;
      destruct (psd_loop _ _ _) as [st1|]; try discriminate Hcomp;
      cbn [mbind result_bind] in Hcomp; injection Hcomp as <-; by exists st1. }
  destruct Hloop as (st1 & Hrun & ->).
  destruct (psd_loop_labels_distinct _ _ _ _ Hrun) as [Hnd Hsub].
  { split; [constructor|]. intros l Hl. by apply elem_of_nil in Hl. }
  split; [done|]. split.
  - intros l Hl. apply Hsub in Hl. rewrite !elem_of_cons, elem_of_nil in Hl.
    destruct Hl as [-> | [-> | [-> | []]]];
      [exists "Granulation" | exists "OscillationBump" | exists "WhiteNoise"];
      vm_compute; reflexivity.
  - apply (submseteq_length _ ["Granulation"; "Gaussian envelope"; "White noise"]).
    by apply NoDup_submseteq.
Qed.

Lemma at_most_three_component_labels_witness :
  exists st,
    plot_psd sample_periodogram sample_convolve scenario_model false false = Ok st /\
    NoDup (unique_labels st) /\
    (forall l, l ∈ unique_labels st -> exists name, label_dict !! name = Some l) /\
    length (unique_labels st) <= 3.
Proof.
  eexists. split; [vm_compute; reflexivity|].
  exact (at_most_three_component_labels sample_periodogram sample_convolve
           scenario_model false false _ eq_refl).
Defined.

(** ** The two normalisations compared *)

Lemma py_sum_mult (c : Q) (power : list Q) :
  (py_sum ((fun p => c * p) <$> power) == c * py_sum power)%Q.
Proof.
  induction power as [|x power IH].
  - unfold py_sum. cbn. ring.
  - cbn [fmap list_fmap]. rewrite !py_sum_cons.
    change (list_fmap Q Q (fun p => c * p)%Q power) with ((fun p => c * p)%Q <$> power).
    rewrite IH. ring.
Qed.

Lemma Qscale_factor (c p v s r : Q) :
  ~ (c == 0)%Q -> ~ (s == 0)%Q -> (c * p * v / (c * s) / r == p * v / s / r)%Q.
Proof.
  intros Hc Hs. assert (H : (c * p * v / (c * s) == p * v / s)%Q) by (field; tauto).
  by rewrite H.
Qed.

Lemma Qscale_ratio (p v s r n : Q) :
  ~ (s == 0)%Q -> ~ (r == 0)%Q -> ~ (n == 0)%Q ->
  (p * v / s / r == n * v / (s * r) * (p / n))%Q.
Proof. intros Hs Hr Hn. field. tauto. Qed.

Lemma size_nonzero (a : list Q) : a <> [] -> ~ (size a == 0)%Q.
Proof.
  destruct a as [|x a]; [done|]. intros _. unfold size, Qeq. cbn [length Qnum Qden inject_Z].
  lia.
Qed.

(** The Parseval normalisation removes the overall scale of the
    periodogram: multiplying every power value by the same non-zero
    factor leaves the normalised curve unchanged. *)
Theorem parseval_normalization_scale_invariant model freq2 power c :
  frequency_grid freq2 -> 2 <= length freq2 ->
  ~ (c == 0)%Q -> ~ (py_sum power == 0)%Q ->
  exists scaled scaled',
    psd_normalize model true freq2 power = Ok scaled /\
    psd_normalize model true freq2 ((fun p => c * p)%Q <$> power) = Ok scaled' /\
    length scaled' = length scaled /\
    forall i x y, scaled !! i = Some x -> scaled' !! i = Some y -> (y == x)%Q.
Proof.
  intros Hgrid Hlen Hc Hs.
  destruct (lookup_lt_is_Some_2 freq2 0) as [f0 H0]; [lia|].
  destruct (lookup_lt_is_Some_2 freq2 1) as [f1 H1]; [lia|].
  eexists _, _. unfold psd_normalize, getitem. rewrite H1, H0.
  cbn [mbind result_bind]. split; [reflexivity|]. split; [reflexivity|].
  split; [by rewrite !length_fmap|].
  intros i x y Hx Hy. rewrite <- list_fmap_compose in Hy.
  rewrite list_lookup_fmap in Hx, Hy.
  destruct (power !! i) as [p|]; [|discriminate Hx].
  injection Hx as <-. injection Hy as <-. cbn.
  rewrite py_sum_mult. by apply Qscale_factor.
Qed.

Lemma parseval_normalization_scale_invariant_witness :
  frequency_grid [1; 2]%Q /\ 2 <= length [1; 2]%Q /\
  ~ (3 == 0)%Q /\ ~ (py_sum [2; 4]%Q == 0)%Q /\
  exists scaled scaled',
    psd_normalize scenario_model true [1; 2]%Q [2; 4]%Q = Ok scaled /\
    psd_normalize scenario_model true [1; 2]%Q ((fun p => 3 * p)%Q <$> [2; 4]%Q) = Ok scaled' /\
    length scaled' = length scaled /\
    forall i x y, scaled !! i = Some x -> scaled' !! i = Some y -> (y == x)%Q.
Proof.
  assert (Hgrid : frequency_grid [1; 2]%Q).
  { split.
    - repeat constructor.
    - intros i j x y Hij Hi Hj.
      destruct i as [|[|i]]; destruct j as [|[|j]];
        try lia; try discriminate Hj; try discriminate Hi;
        injection Hi as <-; injection Hj as <-; reflexivity. }
  assert (Hlen : 2 <= length [1; 2]%Q) by (cbn; lia).
  assert (Hc : ~ (3 == 0)%Q) by discriminate.
  assert (Hs : ~ (py_sum [2; 4]%Q == 0)%Q) by discriminate.
  split; [exact Hgrid|]. split; [exact Hlen|]. split; [exact Hc|]. split; [exact Hs|].
  exact (parseval_normalization_scale_invariant scenario_model [1; 2]%Q [2; 4]%Q 3
           Hgrid Hlen Hc Hs).
Defined.

(** On the same periodogram the two normalisations differ by one constant
    factor, [n_samples * variance / (sum(power) * resolution)], at every
    frequency: the choice of [parseval_norm] moves the drawn curve up or
    down on the logarithmic axes and does not change its shape. *)
Theorem normalizations_differ_by_constant_factor model freq2 power f0 f1 :
  frequency_grid freq2 ->
  freq2 !! 0 = Some f0 -> freq2 !! 1 = Some f1 ->
  ~ (py_sum power == 0)%Q -> time model <> [] ->
  exists parseval per_sample,
    psd_normalize model true freq2 power = Ok parseval /\
    psd_normalize model false freq2 power = Ok per_sample /\
    length parseval = length per_sample /\
    forall i a b, parseval !! i = Some a -> per_sample !! i = Some b ->
      (a == size (time model) * np_var (flux model) / (py_sum power * (f1 - f0)) * b)%Q.
Proof.
  intros Hgrid H0 H1 Hs Ht.
  pose proof (frequency_grid_resolution _ _ _ Hgrid H0 H1) as Hres.
  eexists _, _. unfold psd_normalize, getitem. rewrite H1, H0.
  cbn [mbind result_bind]. split; [reflexivity|]. split; [reflexivity|].
  split; [by rewrite !length_fmap|].
  intros i a b Ha Hb. rewrite list_lookup_fmap in Ha, Hb.
  destruct (power !! i) as [p|]; [|discriminate Ha].
  injection Ha as <-. injection Hb as <-. cbn.
  apply Qscale_ratio; [done| |by apply size_nonzero].
  intros Hz. rewrite Hz in Hres. by apply Qlt_irrefl in Hres.
Qed.

Lemma normalizations_differ_by_constant_factor_witness :
  frequency_grid [1; 2]%Q /\
  [1; 2]%Q !! 0 = Some 1%Q /\ [1; 2]%Q !! 1 = Some 2%Q /\
  ~ (py_sum [2; 4]%Q == 0)%Q /\ time scenario_model <> [] /\
  exists parseval per_sample,
    psd_normalize scenario_model true [1; 2]%Q [2; 4]%Q = Ok parseval /\
    psd_normalize scenario_model false [1; 2]%Q [2; 4]%Q = Ok per_sample /\
    length parseval = length per_sample /\
    forall i a b, parseval !! i = Some a -> per_sample !! i = Some b ->
      (a == size (time scenario_model) * np_var (flux scenario_model) /
            (py_sum [2; 4]%Q * (2 - 1)) * b)%Q.
Proof.
  assert (Hgrid : frequency_grid [1; 2]%Q).
  { split.
    - repeat constructor.
    - intros i j x y Hij Hi Hj.
      destruct i as [|[|i]]; destruct j as [|[|j]];
        try lia; try discriminate Hj; try discriminate Hi;
        injection Hi as <-; injection Hj as <-; reflexivity. }
  assert (Hs : ~ (py_sum [2; 4]%Q == 0)%Q) by discriminate.
  assert (Ht : time scenario_model <> []) by discriminate.
  split; [exact Hgrid|]. split; [reflexivity|]. split; [reflexivity|].
  split; [exact Hs|]. split; [exact Ht|].
  exact (normalizations_differ_by_constant_factor scenario_model [1; 2]%Q [2; 4]%Q 1 2
           Hgrid eq_refl eq_refl Hs Ht).
Defined.

(** ** The zoomed plot and the failures of plot_gp *)


Lemma np_binop_length_le op (a b c : list Q) n :
  np_binop op a b = Ok c -> length a <= n -> length b <= n -> length c <= n.
Proof.
  unfold np_binop. intros H Ha Hb.
  destruct (decide (length a = length b)).
  - injection H as <-. rewrite length_zip_with. lia.
  - destruct a as [|x [|x' a]]; destruct b as [|y [|y' b]]; try discriminate H;
      injection H as <-; cbn [length] in *;
      change (list_fmap Q Q) with (@fmap list _ Q Q); rewrite ?length_fmap; lia.
Qed.

Lemma length_np_linspace start stop num : length (np_linspace start stop num) = num.
Proof. unfold np_linspace. by rewrite length_fmap, length_seq. Qed.

(** A successful [plot_gp] unfolds into its intermediate values. *)
Ltac plot_gp_inv H :=
  unfold plot_gp in H;
  let t0 := fresh "t0" in let tl := fresh "tl" in let ms := fresh "ms" in
  let upper := fresh "upper" in let lower := fresh "lower" in
  let upper_zoom := fresh "upper_zoom" in let lower_zoom := fresh "lower_zoom" in
  destruct (plot_gp_err _) as [err|] eqn:Herr; [|discriminate H];
  cbn [mbind result_bind] in H;
  destruct (getitem _ 0) as [t0|] eqn:Ht0; [|discriminate H];
  cbn [mbind result_bind] in H;
  destruct (getitem_last _) as [tl|] eqn:Htl; [|discriminate H];
  cbn [mbind result_bind] in H;
  destruct (_ _ (np_linspace _ _ _)) as [ms|] eqn:Hms; [|discriminate H];
  cbn [mbind result_bind] in H;
  destruct (np_binop Qplus ms.1 ms.2) as [upper|] eqn:Hup; [|discriminate H];
  cbn [mbind result_bind] in H;
  destruct (np_binop Qminus ms.1 ms.2) as [lower|] eqn:Hlo; [|discriminate H];
  cbn [mbind result_bind] in H;
  destruct (np_binop Qplus (take 300 ms.1) _) as [upper_zoom|] eqn:Hupz; [|discriminate H];
  cbn [mbind result_bind] in H;
  destruct (np_binop Qminus (take 300 ms.1) _) as [lower_zoom|] eqn:Hloz; [|discriminate H];
  cbn [mbind result_bind] in H;
  injection H as <-.

(** The zoomed plot is a window on the first samples: whenever [plot_gp]
    returns, its zoomed figure holds the error bars of at most 150
    observations and the mean and band at no more than 300 points. *)
Theorem zoom_plot_is_bounded gp_predict model figs :
  plot_gp gp_predict model = Ok figs ->
  exists x y yerr xp mu upper lower,
    zoom_plot figs =
      [Errorbar x y yerr; Plot xp mu "Mean"; FillBetween xp upper lower "1$\sigma$"] /\
    x = per_day (take 150 (time model)) /\ y = take 150 (flux model) /\
    length x <= 150 /\ length y <= 150 /\
    (forall a, yerr = Arr a -> length a <= 150) /\
    length xp <= 300 /\ length mu <= 300 /\ length upper <= 300 /\ length lower <= 300.
Proof.
  intros H. plot_gp_inv H. cbn [zoom_plot].
  eexists _, _, _, _, _, _, _. split; [reflexivity|].
  split; [reflexivity|]. split; [reflexivity|].
  unfold per_day. rewrite !length_fmap, !length_take.
  split; [lia|]. split; [lia|]. split.
  - intros a Ha. destruct err as [|e]; [discriminate Ha|].
    injection Ha as <-. rewrite length_take. lia.
  - split; [lia|]. split; [lia|]. split.
    + eapply np_binop_length_le; [exact Hupz| |]; rewrite length_take; lia.
    + eapply np_binop_length_le; [exact Hloz| |]; rewrite length_take; lia.
Qed.

Lemma zoom_plot_is_bounded_witness :
  exists figs,
    plot_gp sample_predict scenario_model = Ok figs /\
    exists x y yerr xp mu upper lower,
      zoom_plot figs =
        [Errorbar x y yerr; Plot xp mu "Mean"; FillBetween xp upper lower "1$\sigma$"] /\
      x = per_day (take 150 (time scenario_model)) /\ y = take 150 (flux scenario_model) /\
      length x <= 150 /\ length y <= 150 /\
      (forall a, yerr = Arr a -> length a <= 150) /\
      length xp <= 300 /\ length mu <= 300 /\ length upper <= 300 /\ length lower <= 300.
Proof.
  eexists. split; [vm_compute; reflexivity|].
  exact (zoom_plot_is_bounded sample_predict scenario_model _ eq_refl).
Defined.

(** For a short series the zoom shows nothing new: with at most 150
    observations (and error bars), and a prediction returned on the points
    it was asked for, the zoomed figure holds the same drawing calls as
    the full one. *)
Theorem short_series_zoom_is_full_plot gp_predict model figs :
  plot_gp gp_predict model = Ok figs ->
  length (time model) <= 150 -> length (flux model) <= 150 ->
  (forall a, error model = Some (Arr a) -> length a <= 150) ->
  (forall x mu std_jitter, gp_predict model x = Ok (mu, std_jitter) ->
     length mu = length x /\ length std_jitter = length x) ->
  zoom_plot figs = gp_plot figs.
Proof.
  intros H Ht Hf He Hpred. plot_gp_inv H. cbn [zoom_plot gp_plot].
  destruct ms as [mu sj]. cbn [fst snd] in *.
  destruct (Hpred _ _ _ Hms) as [Hmu Hsj]. rewrite length_np_linspace in Hmu, Hsj.
  rewrite (take_ge mu), (take_ge sj) in Hupz, Hloz by lia.
  rewrite Hup in Hupz. rewrite Hlo in Hloz. injection Hupz as <-. injection Hloz as <-.
  rewrite (take_ge (time model)), (take_ge (flux model)), (take_ge mu) by lia.
  rewrite (take_ge (np_linspace _ _ _)) by (rewrite length_np_linspace; lia).
  assert (Hz : err_zoom err = err).
  { unfold plot_gp_err, getattr_error in Herr.
    destruct err as [|a]; [done|]. cbn. rewrite take_ge; [done|].
    apply He. destruct (error model) as [v|]; [|discriminate Herr].
    cbn in Herr. by injection Herr as ->. }
  by rewrite Hz.
Qed.

Lemma short_series_zoom_is_full_plot_witness :
  exists figs,
    plot_gp sample_predict scenario_model = Ok figs /\
    length (time scenario_model) <= 150 /\ length (flux scenario_model) <= 150 /\
    (forall a, error scenario_model = Some (Arr a) -> length a <= 150) /\
    (forall x mu std_jitter, sample_predict scenario_model x = Ok (mu, std_jitter) ->
       length mu = length x /\ length std_jitter = length x) /\
    zoom_plot figs = gp_plot figs.
Proof.
  assert (Ht : length (time scenario_model) <= 150) by (cbn; lia).
  assert (Hf : length (flux scenario_model) <= 150) by (cbn; lia).
  assert (He : forall a, error scenario_model = Some (Arr a) -> length a <= 150)
    by discriminate.
  assert (Hp : forall x mu std_jitter,
             sample_predict scenario_model x = Ok (mu, std_jitter) ->
             length mu = length x /\ length std_jitter = length x).
  { intros x mu sj [= <- <-]. by rewrite length_fmap. }
  eexists. split; [vm_compute; reflexivity|].
  split; [exact Ht|]. split; [exact Hf|]. split; [exact He|]. split; [exact Hp|].
  exact (short_series_zoom_is_full_plot sample_predict scenario_model _ eq_refl Ht Hf He Hp).
Defined.



(** ** The failures of plot_psd, all of them *)





